(** * ppsplit: the paragraph splitter of [ppsplit.py]

    A shallow embedding of [process_large_text] (the windowed, thresholded,
    length-bounded greedy grouping of sentences into paragraphs) and of the
    time-marker rewrite done by [save_result], with the properties the
    specification states about them.

    Python values are modelled as follows.
    - A [str] is the list of its code points.
    - A Python [int] is a [Z]; a length or an index is a [nat].
    - An [IndexError] is [None] in the option monad.
    - NumPy scalars and arrays sit behind the interface [Numeric]: the
      segmentation proofs hold for every implementation of [np.dot],
      [np.linalg.norm], [np.mean], [*], [/] and [<]; the instance
      [Binary32.numeric] computes them in IEEE 754 single precision, the
      [dtype] of spaCy's vectors.
    - A finite [float] that is only divided and floored, the [seconds] of
      [format_timestamp], is the rational it stands for. *)

From stdpp Require Import base option list strings gmap.
From Stdlib Require Import ZArith Lia.
From Stdlib Require Import SpecFloat.
From Stdlib Require QArith Qround Lqa DecimalPos.

Local Open Scope Z_scope.

(** ** Text *)

Abbreviation str := (list N).

(** A literal of the source, as code points. *)
Definition py (s : string) : str :=
  Ascii.N_of_ascii <$> String.list_ascii_of_string s.

Definition NL : N := 10%N.
Definition SPACE : str := [32%N].
Definition BLANK : str := [NL; NL].

(** [sep.join(parts)] *)
Fixpoint join (sep : str) (parts : list str) : str :=
  match parts with
  | [] => []
  | [p] => p
  | p :: rest => p ++ sep ++ join sep rest
  end.

(** ** Sequences *)

(** [l[-w:]] for a Python int [w]: the last [w] items when [w] is positive
    (all of [l] when it has fewer), all of [l] when [w] is [0], and [l]
    without its first [-w] items when [w] is negative. *)
Definition tail_slice {A} (w : Z) (l : list A) : list A :=
  if 0 <? w then drop (length l - Z.to_nat w)%nat l
  else drop (Z.to_nat (- w)) l.

(** [l[a:b]] for indices [0 <= a] and [0 <= b]. *)
Definition slice {A} (a b : nat) (l : list A) : list A :=
  drop a (take b l).

(** [for i in range_: st = body(i, st)], stopping at the first exception. *)
Fixpoint for_each {St} (body : nat → St → option St) (range_ : list nat)
    (st : St) : option St :=
  match range_ with
  | [] => Some st
  | i :: rest => st' ← body i st; for_each body rest st'
  end.

(** ** NumPy *)

Class Numeric := {
  vec : Type;                         (* a row of [vectors] *)
  scalar : Type;                      (* a NumPy scalar *)
  np_dot : vec → vec → scalar;        (* [np.dot(u, v)] *)
  np_norm : vec → scalar;             (* [np.linalg.norm(v)] *)
  np_mul : scalar → scalar → scalar;
  np_div : scalar → scalar → scalar;
  np_mean : list scalar → scalar;     (* [np.mean(l)] *)
  np_lt : scalar → scalar → bool;     (* [x < y] *)
  py_zero : scalar;                   (* the int [0] of [else 0] *)
}.

(** ** The splitter *)

Record config `{Numeric} := {
  threshold : scalar;
  max_sentences : Z;
  window_size : Z;
}.

Section Splitter.
Context `{Num : Numeric}.

(** The loop is written once for every rendering [emit] of a closed
    paragraph: the source appends [" ".join(current_para)]; with the
    identity it keeps the sentences of each paragraph apart. *)
Context {P : Type} (emit : list str → P).

Record state := {
  paragraphs : list P;
  current_para : list str;
  prev_vectors : list vec;
}.

Variable cfg : config.
Variables (sentences : list str) (vectors : list vec).

(** Line 42: [np.linalg.norm(vectors, axis=1)], the norm of each row. *)
Definition norms : list scalar := np_norm <$> vectors.

(** Lines 57-60: the similarities with the window. *)
Definition similarities_with (norm_i : scalar) (current_vec : vec)
    (window : list vec) : list scalar :=
  (λ v, np_div (np_dot v current_vec) (np_mul norm_i (np_norm v))) <$> window.

(** Line 61. *)
Definition avg_of (similarities : list scalar) : scalar :=
  match similarities with
  | [] => py_zero
  | _ => np_mean similarities
  end.

(** Lines 64-67 and [any]. *)
Definition should_break (avg_similarity : scalar) (current : list str) : bool :=
  np_lt avg_similarity (threshold cfg)
  || (max_sentences cfg <=? Z.of_nat (length current)).

(** Lines 54-78: one iteration. *)
Definition loop_body (i : nat) (st : state) : option state :=
  current_vec ← vectors !! i;
  norm_i ← norms !! i;
  let similarities :=
    similarities_with norm_i current_vec
      (tail_slice (window_size cfg) (prev_vectors st)) in
  let avg_similarity := avg_of similarities in
  sentence_i ← sentences !! i;
  let st' :=
    if should_break avg_similarity (current_para st) then
      {| paragraphs := paragraphs st ++ [emit (current_para st)];
         current_para := [sentence_i];
         prev_vectors := [current_vec] |}
    else
      {| paragraphs := paragraphs st;
         current_para := current_para st ++ [sentence_i];
         prev_vectors := prev_vectors st ++ [current_vec] |} in
  Some {| paragraphs := paragraphs st';
          current_para := current_para st';
          prev_vectors := tail_slice (window_size cfg) (prev_vectors st') |}.

(** Lines 44-46. *)
Definition init_state : option state :=
  s0 ← sentences !! 0%nat;
  v0 ← vectors !! 0%nat;
  Some {| paragraphs := []; current_para := [s0]; prev_vectors := [v0] |}.

(** The state at the head of iteration [i] (so [state_at 1] is the
    initial one). *)
Definition state_at (i : nat) : option state :=
  st ← init_state; for_each loop_body (seq 1 (i - 1)) st.

(** The value [avg_similarity] takes in iteration [i] (line 61). *)
Definition avg_similarity_at (i : nat) : option scalar :=
  st ← state_at i;
  current_vec ← vectors !! i;
  norm_i ← norms !! i;
  Some (avg_of (similarities_with norm_i current_vec
                  (tail_slice (window_size cfg) (prev_vectors st)))).

(** Lines 80-81. *)
Definition flush (st : state) : list P :=
  match current_para st with
  | [] => paragraphs st
  | _ => paragraphs st ++ [emit (current_para st)]
  end.

(** Lines 29-30 and 44-81: the list [paragraphs] when the function
    returns; [return ""] of the guard is the join of no paragraph. *)
Definition run : option (list P) :=
  match sentences with
  | [] => Some []
  | _ => st ← state_at (length sentences); Some (flush st)
  end.
End Splitter.

Arguments state {_} _.

(** The specification's reading of the window: the cosine similarity of two
    vectors, and the mean of the similarities between vector [i] and the most
    recent [min(window_size, i - s)] vectors before it. *)
Section SpecWindow.
Context `{Num : Numeric}.

Definition cosine_similarity (u v : vec) : scalar :=
  np_div (np_dot u v) (np_mul (np_norm v) (np_norm u)).

Definition spec_window (w : Z) (vectors : list vec) (s i : nat) : list vec :=
  slice (i - Nat.min (Z.to_nat w) (i - s)) i vectors.

Definition spec_avg_similarity (w : Z) (vectors : list vec) (s i : nat)
    (v_i : vec) : scalar :=
  np_mean ((λ u, cosine_similarity u v_i) <$> spec_window w vectors s i).
End SpecWindow.

Section Segment.
Context `{Num : Numeric}.

(** The paragraphs of the source: closed with [" ".join]. *)
Definition segment (cfg : config) (sentences : list str) (vectors : list vec)
  : option (list str) :=
  run (join SPACE) cfg sentences vectors.

(** The same run with the sentences of each paragraph kept apart. *)
Definition segment_blocks (cfg : config) (sentences : list str)
    (vectors : list vec) : option (list (list str)) :=
  run id cfg sentences vectors.

(** Lines 49-51. *)
Variable threshold_065 : scalar.
Definition default_config : config :=
  {| threshold := threshold_065; max_sentences := 4; window_size := 2 |}.

(** [process_large_text], given spaCy's sentence splitter (with the
    [strip]) and its sentence embedding. *)
Variables (sents : str → list str) (embed : str → vec).

Definition process_large_text (text : str) : option str :=
  let sentences := sents text in
  if bool_decide (sentences = []) then Some []
  else
    let vectors := embed <$> sentences in
    paragraphs ← segment default_config sentences vectors;
    Some (join BLANK paragraphs).
End Segment.


(** ** Invariants of the loop *)

Section Invariants.
Context `{Num : Numeric}.

(** What holds of the run that keeps the sentences apart, at the head of
    iteration [i]: the closed paragraphs followed by the open one are the
    first [i] sentences, none is empty, none is longer than
    [max_sentences], and the window holds the vectors of the last
    sentences of the open paragraph. *)
Record block_inv (cfg : config) (sentences : list str) (vectors : list vec)
    (i : nat) (st : state (list str)) : Prop := {
  inv_cover : concat (paragraphs st) ++ current_para st = take i sentences;
  inv_closed_nonempty : Forall (λ b, b ≠ []) (paragraphs st);
  inv_current_nonempty : current_para st ≠ [];
  inv_closed_bound :
    Forall (λ b, Z.of_nat (length b) ≤ Z.max 1 (max_sentences cfg))
           (paragraphs st);
  inv_current_bound :
    Z.of_nat (length (current_para st)) ≤ Z.max 1 (max_sentences cfg);
  inv_window :
    0 < window_size cfg →
    prev_vectors st
    = spec_window (window_size cfg) vectors (length (concat (paragraphs st))) i;
}.

(** The state of the source's run, from the state of the run that keeps
    the sentences apart. *)
Definition render {P} (emit : list str → P) (st : state (list str)) : state P :=
  {| paragraphs := emit <$> paragraphs st;
     current_para := current_para st;
     prev_vectors := prev_vectors st |}.

(** Two states that cut at the same places. *)
Definition same_cuts (st1 st2 : state (list str)) : Prop :=
  length <$> paragraphs st1 = length <$> paragraphs st2
  ∧ length (current_para st1) = length (current_para st2)
  ∧ prev_vectors st1 = prev_vectors st2.

(** The first index of each block of a partition, and the index range of
    its [k]-th block. *)
Definition block_start {A} (blocks : list (list A)) (k : nat) : nat :=
  length (concat (take k blocks)).
End Invariants.

(** ** NumPy in single precision *)

(** spaCy's vectors, and so every scalar the loop computes from them, are
    [float32]. The operations on them are those of IEEE 754 binary32 (24
    bits of precision, round to nearest even), with its infinities and its
    NaN: dividing zero by zero gives NaN and warns, it does not raise. *)
Module Binary32.
Definition prec : Z := 24.
Definition emax : Z := 128.

Abbreviation f32 := spec_float.

Definition add : f32 → f32 → f32 := SFadd prec emax.
Definition mul : f32 → f32 → f32 := SFmul prec emax.
Definition div : f32 → f32 → f32 := SFdiv prec emax.
Definition sqrt : f32 → f32 := SFsqrt prec emax.
Definition lt : f32 → f32 → bool := SFltb.
Definition le : f32 → f32 → bool := SFleb.
Definition valid : f32 → bool := valid_binary prec emax.

Definition zero : f32 := S754_zero false.
Definition nan : f32 := S754_nan.

(** The [float32] of an integer. *)
Definition of_Z (n : Z) : f32 := binary_normalize prec emax n 0 false.

(** The [float32] nearest to the decimal fraction [n / d]. *)
Definition ratio (n d : Z) : f32 := div (of_Z n) (of_Z d).

(** [np.dot] of two rows of one array (so of one length), accumulated
    from the left. *)
Definition dot (u v : list f32) : f32 :=
  foldl (λ acc xy, add acc (mul xy.1 xy.2)) zero (zip u v).

Definition norm (v : list f32) : f32 := sqrt (dot v v).

Definition sum (l : list f32) : f32 :=
  match l with
  | [] => zero
  | x :: rest => foldl add x rest
  end.

(** [np.mean]: the sum divided by the count. *)
Definition mean (l : list f32) : f32 :=
  div (sum l) (of_Z (Z.of_nat (length l))).

#[global] Instance numeric : Numeric := {|
  vec := list f32;
  scalar := f32;
  np_dot := dot;
  np_norm := norm;
  np_mul := mul;
  np_div := div;
  np_mean := mean;
  np_lt := lt;
  py_zero := zero;
|}.

(** Line 49: [0.65], compared with a [float32]. *)
Definition threshold_065 : f32 := ratio 65 100.

Definition default : config := default_config threshold_065.

(** A row of integers. *)
Definition row (l : list Z) : list f32 := of_Z <$> l.
End Binary32.

(** ** Sample inputs *)

Module Sample.
Import Binary32.

Definition sentences : list str :=
  [py "A."; py "B."; py "C."; py "D."; py "E."].

(** [A], [B] and [C] share one direction and [D] and [E] another; each
    has a small component of its own. *)
Definition vA := row [1000; 0; 100; 0; 0; 0; 0].
Definition vB := row [1000; 0; 0; 100; 0; 0; 0].
Definition vC := row [1000; 0; 0; 0; 100; 0; 0].
Definition vD := row [101; 995; 0; 0; 0; 100; 0].
Definition vE := row [101; 995; 0; 0; 0; 0; 100].

Definition vectors : list (list f32) := [vA; vB; vC; vD; vE].

(** The defaults, but for one sentence per paragraph at most. *)
Definition one_per_paragraph : config (H:=numeric) :=
  {| threshold := threshold_065; max_sentences := 1; window_size := 2 |}.

(** The defaults, but for a window of size zero. *)
Definition unbounded_window : config (H:=numeric) :=
  {| threshold := threshold_065; max_sentences := 4; window_size := 0 |}.

(** A row whose norm is zero. *)
Definition vZero := row [0; 0; 0; 0; 0; 0; 0].
End Sample.

(** ** Vectors of norm zero *)

Module ZeroNorm.
Import Binary32.

Definition is_zero (x : f32) : bool :=
  match x with S754_zero _ => true | _ => false end.

(** A row of zeros, of either sign. *)
Definition zero_row (v : list f32) : bool := forallb is_zero v.

(** A zero or NaN: what a sum of products with zeros can be. *)
Definition null (x : f32) : bool :=
  match x with S754_zero _ | S754_nan => true | _ => false end.

(** Neither zero nor any other finite number. *)
Definition not_finite (x : f32) : bool :=
  match x with S754_nan | S754_infinity _ => true | _ => false end.

(** Following the specification's words: a division that falls back to [0]
    when the divisor, a product of norms, is zero. The source has no such
    fallback; this one is here to be compared with it. *)
Definition div_or_zero (x y : f32) : f32 :=
  if is_zero y then zero else div x y.

Definition with_fallback : Numeric := {|
  vec := list f32;
  scalar := f32;
  np_dot := dot;
  np_norm := norm;
  np_mul := mul;
  np_div := div_or_zero;
  np_mean := mean;
  np_lt := lt;
  py_zero := zero;
|}.

Definition default_with_fallback : config (H:=with_fallback) :=
  @Build_config with_fallback threshold_065 4 2.
End ZeroNorm.

(** ** The time markers of [save_result] *)

Module Marker.
Definition LBRACKET : N := 91%N.
Definition COLON : N := 58%N.
Definition RBRACKET : N := 93%N.

(** The digits [0] to [9]. *)
Definition ascii_digit (c : N) : bool := ((48 <=? c) && (c <=? 57))%N.

Section Pattern.
(** [\d]. On a [str] it matches every decimal digit of Unicode, the
    digits [0] to [9] among them. *)
Variable is_digit : N → bool.

(** A full match of [\[\d{2}:\d{2}\]]. *)
Definition is_marker (m : str) : bool :=
  match m with
  | [c0; c1; c2; c3; c4; c5; c6] =>
      (c0 =? LBRACKET)%N && is_digit c1 && is_digit c2 && (c3 =? COLON)%N
      && is_digit c4 && is_digit c5 && (c6 =? RBRACKET)%N
  | _ => false
  end.

(** The pattern matches at the head of [s]. *)
Definition matches_at (s : str) : bool := is_marker (take 7 s).

(** Line 135: [re.sub(r'(\[\d{2}:\d{2}\])', r'\n\n\1\n\n', s)]. The text
    is scanned from the left; where the pattern matches, the match is
    written between two pairs of line feeds and the scan goes on after
    it, elsewhere one character is copied. *)
Fixpoint re_sub (s : str) : str :=
  match s with
  | [] => []
  | c0 :: rest =>
      match rest with
      | c1 :: c2 :: c3 :: c4 :: c5 :: c6 :: after =>
          if is_marker [c0; c1; c2; c3; c4; c5; c6]
          then BLANK ++ [c0; c1; c2; c3; c4; c5; c6] ++ BLANK ++ re_sub after
          else c0 :: re_sub rest
      | _ => c0 :: re_sub rest
      end
  end.

(** What [save_result] writes to the file. *)
Definition save_result (processed : str) : str := re_sub processed.

End Pattern.
End Marker.

(** ** Similar and dissimilar sentences *)

Module Similar.
Import Binary32.

(** A similarity of about 0.99: a [float32] from 0.98 up to, but not, 1. *)
Definition about_099 (s : f32) : bool :=
  valid s && le (ratio 98 100) s && lt s (of_Z 1).

(** A similarity of about 0.1: a [float32] from 0.09 to 0.11. *)
Definition about_01 (s : f32) : bool :=
  valid s && le (ratio 9 100) s && le s (ratio 11 100).
End Similar.

(** ** The lists of the loop as objects *)

(** Python's lists are objects: [append] changes a list in place, and every
    name bound to it sees the change; a display [[x]] and a slice [l[a:]]
    make a new list; an assignment binds a name to an object. [Store]
    runs the function on a heap of such objects, the sentence list and the
    array of vectors being two objects the caller holds. *)
Module Store.
Abbreviation loc := positive.

Section Objects.
Context `{Num : Numeric}.

Inductive obj :=
  | Strs (items : list str)       (* a list of [str] *)
  | Vecs (rows : list vec).       (* a list, or an array, of vectors *)

Local Abbreviation heap := (gmap loc obj).

(** A new object, at an address not in use. *)
Definition alloc (o : obj) (h : heap) : loc * heap :=
  let l := fresh (dom h) in (l, <[l := o]> h).

Definition read_strs (l : loc) (h : heap) : option (list str) :=
  match h !! l with Some (Strs items) => Some items | _ => None end.

Definition read_vecs (l : loc) (h : heap) : option (list vec) :=
  match h !! l with Some (Vecs rows) => Some rows | _ => None end.

(** [l.append(x)] *)
Definition append_str (l : loc) (x : str) (h : heap) : option heap :=
  items ← read_strs l h; Some (<[l := Strs (items ++ [x])]> h).

Definition append_vec (l : loc) (x : vec) (h : heap) : option heap :=
  rows ← read_vecs l h; Some (<[l := Vecs (rows ++ [x])]> h).

(** The objects the names [paragraphs], [current_para] and
    [prev_vectors] are bound to. *)
Record frame := {
  paragraphs_ref : loc;
  current_para_ref : loc;
  prev_vectors_ref : loc;
}.

Variable cfg : config.
(** The objects bound to [sentences] and [vectors], and [norms]. *)
Variables (sentences_ref vectors_ref : loc) (norms : list scalar).

(** Lines 54-78. *)
Definition loop_body (i : nat) (fh : frame * heap) : option (frame * heap) :=
  let '(f, h) := fh in
  vectors ← read_vecs vectors_ref h;
  current_vec ← vectors !! i;
  norm_i ← norms !! i;
  prev_vectors ← read_vecs (prev_vectors_ref f) h;
  let similarities :=
    similarities_with norm_i current_vec
      (tail_slice (window_size cfg) prev_vectors) in
  let avg_similarity := avg_of similarities in
  current_para ← read_strs (current_para_ref f) h;
  sentences ← read_strs sentences_ref h;
  sentence_i ← sentences !! i;
  '(f, h) ←
    (if should_break cfg avg_similarity current_para then
       h ← append_str (paragraphs_ref f) (join SPACE current_para) h;
       let '(c, h) := alloc (Strs [sentence_i]) h in
       let '(w, h) := alloc (Vecs [current_vec]) h in
       Some ({| paragraphs_ref := paragraphs_ref f;
                current_para_ref := c;
                prev_vectors_ref := w |}, h)
     else
       h ← append_str (current_para_ref f) sentence_i h;
       h ← append_vec (prev_vectors_ref f) current_vec h;
       Some (f, h));
  prev_vectors ← read_vecs (prev_vectors_ref f) h;
  let '(w, h) := alloc (Vecs (tail_slice (window_size cfg) prev_vectors)) h in
  Some ({| paragraphs_ref := paragraphs_ref f;
           current_para_ref := current_para_ref f;
           prev_vectors_ref := w |}, h).
End Objects.

Section Run.
Context `{Num : Numeric}.
Variable cfg : config.

(** Lines 29-30 and 41-83, on the objects at [sentences_ref] and
    [vectors_ref]: the string returned and the heap left. *)
Definition run (sentences_ref vectors_ref : loc) (h : gmap loc obj)
  : option (str * gmap loc obj) :=
  sentences ← read_strs sentences_ref h;
  if bool_decide (sentences = []) then Some ([], h)
  else
    vectors ← read_vecs vectors_ref h;
    let norms := np_norm <$> vectors in
    let '(p, h) := alloc (Strs []) h in
    s0 ← sentences !! 0%nat;
    let '(c, h) := alloc (Strs [s0]) h in
    v0 ← vectors !! 0%nat;
    let '(w, h) := alloc (Vecs [v0]) h in
    '(f, h) ←
      for_each (loop_body cfg sentences_ref vectors_ref norms)
        (seq 1 (length sentences - 1))
        ({| paragraphs_ref := p; current_para_ref := c;
            prev_vectors_ref := w |}, h);
    current_para ← read_strs (current_para_ref f) h;
    h ← (match current_para with
         | [] => Some h
         | _ => append_str (paragraphs_ref f) (join SPACE current_para) h
         end);
    paragraphs ← read_strs (paragraphs_ref f) h;
    Some (join BLANK paragraphs, h).
End Run.
End Store.

(** The heap [h] and the frame [f] of a run started on the heap [h0] hold
    the state [st] of the loop: the three names are bound to objects made
    by the run, which hold the lists of [st], and every object of [h0] is
    as it was. *)
Record holds `{Num : Numeric} (h0 h : gmap Store.loc Store.obj)
    (f : Store.frame) (st : state str) : Prop := {
  holds_old : ∀ l, l ∈ dom h0 → h !! l = h0 !! l;
  holds_paragraphs :
    h !! Store.paragraphs_ref f = Some (Store.Strs (paragraphs st));
  holds_current_para :
    h !! Store.current_para_ref f = Some (Store.Strs (current_para st));
  holds_prev_vectors :
    h !! Store.prev_vectors_ref f = Some (Store.Vecs (prev_vectors st));
  holds_new_paragraphs : Store.paragraphs_ref f ∉ dom h0;
  holds_new_current_para : Store.current_para_ref f ∉ dom h0;
  holds_new_prev_vectors : Store.prev_vectors_ref f ∉ dom h0;
  holds_apart : Store.paragraphs_ref f ≠ Store.current_para_ref f;
}.

(** Two heaps that hold the sample input at different addresses, the second
    next to an object of its own. *)
Module SampleHeap.
Definition first : gmap Store.loc Store.obj :=
  <[1%positive := Store.Strs Sample.sentences]>
    (<[2%positive := Store.Vecs Sample.vectors]> ∅).

Definition second : gmap Store.loc Store.obj :=
  <[7%positive := Store.Strs Sample.sentences]>
    (<[3%positive := Store.Vecs Sample.vectors]>
       (<[4%positive := Store.Strs [py "kept"]]> ∅)).
End SampleHeap.

(** ** The embedding pass (lines 32-39) *)

(** [range(0, stop, step)], for a positive [step]. *)
Definition range_step (stop step : nat) : list nat :=
  (λ k, k * step)%nat <$> seq 0 ((stop + step - 1) / step)%nat.

(** Line 33. *)
Definition batch_size : nat := 50.

Section Embedding.
Context `{Num : Numeric}.

(** [nlp(sent).vector] *)
Variable embed : str → vec.

(** What the pass has built so far: the list [vectors], and the arguments
    [progress_callback] was called with, each the fraction [i / n] given by
    its numerator and its denominator. *)
Record embedding := {
  embedded : list vec;
  progress : list (nat * nat);
}.

(** Lines 36-39: one batch. *)
Definition embed_batch (sentences : list str) (acc : embedding) (i : nat)
  : embedding :=
  let batch := slice i (i + batch_size) sentences in
  {| embedded := embedded acc ++ (embed <$> batch);
     progress := progress acc ++ [(i, length sentences)] |}.

(** Lines 34-39. *)
Definition embed_all (sentences : list str) : embedding :=
  foldl (embed_batch sentences) {| embedded := []; progress := [] |}
    (range_step (length sentences) batch_size).

(** [process_large_text] with its embedding pass: the text it returns and
    the calls of [progress_callback]. *)
Definition process_large_text_reporting (threshold_065 : scalar)
    (sents : str → list str) (text : str) : option (str * list (nat * nat)) :=
  let sentences := sents text in
  if bool_decide (sentences = []) then Some ([], [])
  else
    let pass := embed_all sentences in
    paragraphs ← segment (default_config threshold_065) sentences (embedded pass);
    Some (join BLANK paragraphs, progress pass).
End Embedding.

(** ** The returned text, sentence by sentence *)

(** The sentences in order, with the [k]-th separator between the [k]-th
    sentence and the next. *)
Definition glue (sentences : list str) (seps : list str) : str :=
  match sentences with
  | [] => []
  | s0 :: rest => s0 ++ concat (zip_with app seps rest)
  end.

(** The state after iteration [i], by the decision [cut] taken in it
    (lines 69-78). *)
Definition next_state `{Num : Numeric} {P} (emit : list str → P) (cfg : config)
    (st : state P) (s_i : str) (v_i : vec) (cut : bool) : state P :=
  if cut then
    {| paragraphs := paragraphs st ++ [emit (current_para st)];
       current_para := [s_i];
       prev_vectors := tail_slice (window_size cfg) [v_i] |}
  else
    {| paragraphs := paragraphs st;
       current_para := current_para st ++ [s_i];
       prev_vectors := tail_slice (window_size cfg) (prev_vectors st ++ [v_i]) |}.

(** ** Counting markers *)

(** The number of indices of [s] at which the pattern matches. *)
Fixpoint marker_count (is_digit : N → bool) (s : str) : nat :=
  match s with
  | [] => 0
  | c :: rest =>
      (if Marker.matches_at is_digit s then 1 else 0)
      + marker_count is_digit rest
  end.

(** ** [format_timestamp] *)

Module Timestamp.
(** The digits of a decimal numeral, as characters. *)
Fixpoint uint_chars (u : Decimal.uint) : str :=
  match u with
  | Decimal.Nil => []
  | Decimal.D0 u => 48%N :: uint_chars u
  | Decimal.D1 u => 49%N :: uint_chars u
  | Decimal.D2 u => 50%N :: uint_chars u
  | Decimal.D3 u => 51%N :: uint_chars u
  | Decimal.D4 u => 52%N :: uint_chars u
  | Decimal.D5 u => 53%N :: uint_chars u
  | Decimal.D6 u => 54%N :: uint_chars u
  | Decimal.D7 u => 55%N :: uint_chars u
  | Decimal.D8 u => 56%N :: uint_chars u
  | Decimal.D9 u => 57%N :: uint_chars u
  end.

(** [str(n)] of an int: its decimal numeral, after [-] when negative. *)
Definition decimal (n : Z) : str :=
  match n with
  | 0 => [48%N]
  | Z.pos p => uint_chars (Pos.to_uint p)
  | Z.neg p => 45%N :: uint_chars (Pos.to_uint p)
  end.

(** [f"{n:02d}"]: the numeral, with a zero before it when it is one
    character long. *)
Definition format_02d (n : Z) : str :=
  let d := decimal n in
  if (length d <? 2)%nat then 48%N :: d else d.

(** Lines 16-17, from the whole minutes that line 15 computes. *)
Definition format_minutes (minutes : Z) : str :=
  let hours := minutes / 60 in
  let minutes := minutes mod 60 in
  [Marker.LBRACKET] ++ format_02d hours ++ [Marker.COLON]
    ++ format_02d minutes ++ [Marker.RBRACKET].

(** Line 15: [divmod(seconds, 60)[0]], the floor of [seconds / 60]. The
    float [seconds] is taken by its value, a rational. *)
Definition whole_minutes (seconds : QArith_base.Q) : Z :=
  Qround.Qfloor (QArith_base.Qdiv seconds (QArith_base.inject_Z 60)).

(** The floats on which the two [divmod] of lines 15-16 are exact: below
    [2^53] in magnitude, [seconds - fmod(seconds, 60)] and both quotients
    are floats, so nothing is rounded. *)
Definition exact (seconds : QArith_base.Q) : Prop :=
  QArith_base.Qlt (QArith_base.inject_Z (- 2 ^ 53)) seconds
  ∧ QArith_base.Qlt seconds (QArith_base.inject_Z (2 ^ 53)).

(** From zero to under one hundred hours. *)
Definition in_range (seconds : QArith_base.Q) : Prop :=
  QArith_base.Qle (QArith_base.inject_Z 0) seconds
  ∧ QArith_base.Qlt seconds (QArith_base.inject_Z 360000).

(** [format_timestamp(seconds)] for a finite [seconds] ([int] raises on an
    infinity and on NaN). *)
Definition format_timestamp (seconds : QArith_base.Q) : str :=
  format_minutes (whole_minutes seconds).

(** The tens and the units of [n], as two characters. *)
Definition two_digits (n : Z) : str :=
  [(48 + Z.to_N (n / 10))%N; (48 + Z.to_N (n mod 10))%N].
End Timestamp.

(** * Properties of the loop *)

(** ** Loops *)

Lemma for_each_cons {St} (body : nat → St → option St) i range st :
  for_each body (i :: range) st = st' ← body i st; for_each body range st'.
Proof. done. Qed.

Lemma for_each_app {St} (body : nat → St → option St) r1 r2 st :
  for_each body (r1 ++ r2) st = st' ← for_each body r1 st; for_each body r2 st'.
Proof.
  revert st. induction r1 as [|i r1 IH]; intros st; simpl; [done|].
  destruct (body i st) as [st1|]; simpl; [apply IH|done].
Qed.

(** A loop over [a, a+1, ..., a+k-1] whose body keeps an indexed invariant and
    never raises runs to its end, and the invariant holds there. *)
Lemma for_each_invariant {St} (I : nat → St → Prop)
    (body : nat → St → option St) (k a : nat) (st : St) :
  I a st →
  (∀ i s, (a ≤ i < a + k)%nat → I i s → ∃ s', body i s = Some s' ∧ I (S i) s') →
  ∃ st', for_each body (seq a k) st = Some st' ∧ I (a + k)%nat st'.
Proof.
  revert a st. induction k as [|k IH]; intros a st Ha Hstep; simpl.
  - exists st. by rewrite Nat.add_0_r.
  - destruct (Hstep a st) as (s' & -> & Hs'); [lia|done|]. simpl.
    destruct (IH (S a) s') as (st' & -> & Hst'); [done| |].
    + intros i s Hi. apply Hstep. lia.
    + exists st'. split; [done|]. by replace (a + S k)%nat with (S a + k)%nat by lia.
Qed.

(** Two loops over one range whose bodies keep a relation between their
    states end in related states, or raise together. *)
Lemma for_each_related {St1 St2} (R : St1 → St2 → Prop)
    (body1 : nat → St1 → option St1) (body2 : nat → St2 → option St2)
    range st1 st2 :
  R st1 st2 →
  (∀ i s1 s2, R s1 s2 → option_Forall2 R (body1 i s1) (body2 i s2)) →
  option_Forall2 R (for_each body1 range st1) (for_each body2 range st2).
Proof.
  intros HR Hstep. revert st1 st2 HR.
  induction range as [|i range IH]; intros st1 st2 HR; simpl.
  - by constructor.
  - destruct (Hstep i st1 st2 HR) as [s1 s2 Hs|]; simpl; [by apply IH|constructor].
Qed.

(** ** Slices *)

Lemma tail_slice_pos {A} (w : Z) (l : list A) :
  0 < w → tail_slice w l = drop (length l - Z.to_nat w) l.
Proof. intros Hw. unfold tail_slice. by rewrite (proj2 (Z.ltb_lt 0 w) Hw). Qed.

Lemma tail_slice_idemp {A} (w : Z) (l : list A) :
  0 < w → tail_slice w (tail_slice w l) = tail_slice w l.
Proof.
  intros Hw. rewrite !tail_slice_pos by done.
  rewrite length_drop, drop_drop. f_equal. lia.
Qed.

Lemma tail_slice_singleton {A} (w : Z) (x : A) : 0 < w → tail_slice w [x] = [x].
Proof.
  intros Hw. rewrite tail_slice_pos by done. simpl.
  by replace (1 - Z.to_nat w)%nat with 0%nat by lia.
Qed.

Lemma slice_snoc {A} (a b : nat) (l : list A) (x : A) :
  (a ≤ b)%nat → l !! b = Some x → slice a b l ++ [x] = slice a (S b) l.
Proof.
  intros Hab Hx. unfold slice. rewrite (take_S_r l b x Hx).
  rewrite drop_app_le; [done|]. rewrite length_take. apply lookup_lt_Some in Hx. lia.
Qed.

Lemma slice_length {A} (a b : nat) (l : list A) :
  (b ≤ length l)%nat → length (slice a b l) = (b - a)%nat.
Proof. intros Hb. unfold slice. rewrite length_drop, length_take. lia. Qed.

Lemma drop_slice {A} (k a b : nat) (l : list A) :
  drop k (slice a b l) = slice (a + k) b l.
Proof. unfold slice. by rewrite drop_drop. Qed.

Lemma slice_0 {A} (b : nat) (l : list A) : slice 0 b l = take b l.
Proof. done. Qed.

(** ** The invariant *)

Section LoopInvariant.
Context `{Num : Numeric}.
Variable cfg : config.
Variables (sentences : list str) (vectors : list vec).
Hypothesis same_length : length vectors = length sentences.

Lemma block_inv_init s0 v0 :
  sentences !! 0%nat = Some s0 → vectors !! 0%nat = Some v0 →
  block_inv cfg sentences vectors 1
    {| paragraphs := []; current_para := [s0]; prev_vectors := [v0] |}.
Proof.
  intros Hs Hv. split; simpl; try done.
  - destruct sentences; by simplify_eq/=.
  - lia.
  - intros Hw. unfold spec_window, slice.
    replace (1 - Nat.min (Z.to_nat (window_size cfg)) (1 - 0))%nat with 0%nat by lia.
    destruct vectors; by simplify_eq/=.
Qed.

Lemma block_inv_index i st :
  (i ≤ length sentences)%nat → block_inv cfg sentences vectors i st →
  (length (concat (paragraphs st)) + length (current_para st) = i)%nat.
Proof.
  intros Hi [Hc _ _ _ _ _]. apply (f_equal length) in Hc.
  rewrite length_app, length_take in Hc. lia.
Qed.

Lemma block_inv_step i st :
  (1 ≤ i < length sentences)%nat → block_inv cfg sentences vectors i st →
  ∃ st', loop_body id cfg sentences vectors i st = Some st'
         ∧ block_inv cfg sentences vectors (S i) st'.
Proof.
  intros Hi Hinv. pose proof (block_inv_index i st ltac:(lia) Hinv) as Hidx.
  destruct Hinv as [Hc Hne Hcne Hb Hcb Hw].
  destruct (lookup_lt_is_Some_2 sentences i) as [s_i Hs]; [lia|].
  destruct (lookup_lt_is_Some_2 vectors i) as [v_i Hv]; [lia|].
  unfold loop_body, norms. rewrite Hv, list_lookup_fmap, Hv, Hs. simpl.
  eexists; split; [done|].
  destruct (should_break _ _) eqn:Hbr; split; simpl.
  - rewrite concat_app, (take_S_r _ _ _ Hs), <- Hc. simpl.
    by rewrite app_nil_r.
  - apply Forall_app; split; [done|]. by apply Forall_singleton.
  - done.
  - apply Forall_app; split; [done|]. by apply Forall_singleton.
  - lia.
  - intros Hpos. rewrite tail_slice_singleton by done.
    rewrite concat_app, length_app. simpl. rewrite app_nil_r, Hidx.
    unfold spec_window, slice.
    replace (S i - Nat.min _ _)%nat with i by lia.
    rewrite (take_S_r _ _ _ Hv), drop_app_length'; [done|].
    rewrite length_take. lia.
  - by rewrite (take_S_r _ _ _ Hs), <- Hc, app_assoc.
  - done.
  - by destruct (current_para st).
  - done.
  - unfold should_break in Hbr. apply orb_false_elim in Hbr as [_ Hbr].
    apply Z.leb_gt in Hbr. rewrite length_app. simpl. lia.
  - intros Hpos. rewrite (Hw Hpos). unfold spec_window.
    rewrite (slice_snoc _ i vectors v_i) by (done || lia).
    rewrite tail_slice_pos by done.
    rewrite slice_length by lia. rewrite drop_slice. f_equal. lia.
Qed.

(** The loop reaches every iteration without raising, in a state that
    satisfies the invariant. *)
Lemma state_at_inv i :
  (1 ≤ i ≤ length sentences)%nat →
  ∃ st, state_at id cfg sentences vectors i = Some st
        ∧ block_inv cfg sentences vectors i st.
Proof.
  intros Hi.
  destruct (lookup_lt_is_Some_2 sentences 0) as [s0 Hs]; [lia|].
  destruct (lookup_lt_is_Some_2 vectors 0) as [v0 Hv]; [lia|].
  unfold state_at, init_state. rewrite Hs, Hv. simpl.
  destruct (for_each_invariant (block_inv cfg sentences vectors)
              (loop_body id cfg sentences vectors) (i - 1) 1
              {| paragraphs := []; current_para := [s0]; prev_vectors := [v0] |})
    as (st & Hst & Hinv).
  - by apply block_inv_init.
  - intros j s Hj. apply block_inv_step. lia.
  - exists st. split; [done|]. by replace i with (1 + (i - 1))%nat by lia.
Qed.
End LoopInvariant.

(** ** The rendering of a paragraph does not steer the loop *)

Section Render.
Context `{Num : Numeric}.
Context {P : Type} (emit : list str → P).
Variable cfg : config.
Variables (sentences : list str) (vectors : list vec).

Lemma loop_body_render i st :
  loop_body emit cfg sentences vectors i (render emit st)
  = render emit <$> loop_body id cfg sentences vectors i st.
Proof.
  unfold loop_body. destruct (vectors !! i) as [v|]; simpl; [|done].
  destruct (norms vectors !! i) as [n|]; simpl; [|done].
  destruct (sentences !! i) as [s|]; simpl; [|done].
  destruct (should_break _ _ _); unfold render; simpl; [|done].
  by rewrite fmap_app.
Qed.

Lemma for_each_render range st :
  for_each (loop_body emit cfg sentences vectors) range (render emit st)
  = render emit <$> for_each (loop_body id cfg sentences vectors) range st.
Proof.
  revert st. induction range as [|i range IH]; intros st; simpl; [done|].
  rewrite loop_body_render.
  destruct (loop_body id cfg sentences vectors i st) as [st'|]; simpl; [|done].
  apply IH.
Qed.

Lemma state_at_render i :
  state_at emit cfg sentences vectors i
  = render emit <$> state_at id cfg sentences vectors i.
Proof.
  unfold state_at, init_state.
  destruct (sentences !! 0%nat) as [s0|]; simpl; [|done].
  destruct (vectors !! 0%nat) as [v0|]; simpl; [|done].
  apply (for_each_render _
           {| paragraphs := []; current_para := [s0]; prev_vectors := [v0] |}).
Qed.

Lemma flush_render st : flush emit (render emit st) = emit <$> flush id st.
Proof.
  unfold flush, render. simpl. destruct (current_para st); [done|].
  by rewrite fmap_app.
Qed.

Lemma run_render :
  run emit cfg sentences vectors
  = fmap (M:=option) (fmap (M:=list) emit) (run id cfg sentences vectors).
Proof.
  unfold run. destruct sentences as [|s0 rest] eqn:Hs; [done|].
  rewrite <- Hs, state_at_render.
  destruct (state_at id cfg sentences vectors (length sentences)) as [st|];
    simpl; [|done].
  by rewrite flush_render.
Qed.

Lemma avg_similarity_at_render i :
  avg_similarity_at emit cfg sentences vectors i
  = avg_similarity_at id cfg sentences vectors i.
Proof.
  unfold avg_similarity_at. rewrite state_at_render.
  by destruct (state_at id cfg sentences vectors i).
Qed.
End Render.

(** ** Partitions *)

Lemma block_start_S {A} (blocks : list (list A)) (k : nat) (b : list A) :
  blocks !! k = Some b →
  block_start blocks (S k) = (block_start blocks k + length b)%nat.
Proof.
  intros Hb. unfold block_start. rewrite (take_S_r _ _ _ Hb).
  rewrite concat_app, length_app. simpl. by rewrite app_nil_r.
Qed.

(** The [k]-th block of a partition of [l] is the slice of [l] that starts
    where the blocks before it end. *)
Lemma block_is_slice {A} (blocks : list (list A)) (k : nat) (b : list A) :
  blocks !! k = Some b →
  b = slice (block_start blocks k) (block_start blocks k + length b)
        (concat blocks).
Proof.
  intros Hb. unfold block_start, slice.
  assert (concat blocks
          = concat (take k blocks) ++ b ++ concat (drop (S k) blocks)) as ->.
  { rewrite <- (take_drop_middle _ _ _ Hb) at 1. by rewrite concat_app. }
  by rewrite take_app_add, take_app_length, drop_app_length.
Qed.

Lemma singleton_blocks {A} (blocks : list (list A)) :
  Forall (λ b, length b = 1%nat) blocks →
  blocks = (λ x, [x]) <$> concat blocks.
Proof.
  induction 1 as [|b blocks Hb _ IH]; [done|].
  destruct b as [|x [|??]]; simplify_eq/=. by f_equal.
Qed.

Lemma join_singleton (sep : str) (l : list str) :
  join sep <$> ((λ x, [x]) <$> l) = l.
Proof. induction l as [|x l IH]; [done|]. simpl. by f_equal. Qed.

(** ** The result of a run *)

Section Results.
Context `{Num : Numeric}.
Variable cfg : config.
Variables (sentences : list str) (vectors : list vec).
Hypothesis same_length : length vectors = length sentences.

(** The run returns the closed paragraphs and then the open one. *)
Lemma segment_blocks_final :
  sentences ≠ [] →
  ∃ st, state_at id cfg sentences vectors (length sentences) = Some st
        ∧ block_inv cfg sentences vectors (length sentences) st
        ∧ segment_blocks cfg sentences vectors
          = Some (paragraphs st ++ [current_para st]).
Proof.
  intros Hne.
  destruct (state_at_inv cfg sentences vectors same_length (length sentences))
    as (st & Hst & Hinv).
  { destruct sentences; [done|simpl; lia]. }
  exists st. split; [done|]. split; [done|].
  unfold segment_blocks, run. destruct sentences as [|s0 rest]; [done|].
  rewrite Hst. simpl. unfold flush.
  destruct (current_para st) eqn:Hc; [|done].
  by destruct (inv_current_nonempty _ _ _ _ _ Hinv).
Qed.

Lemma segment_render :
  segment cfg sentences vectors
  = fmap (M:=option) (fmap (M:=list) (join SPACE))
      (segment_blocks cfg sentences vectors).
Proof. apply run_render. Qed.

(** The blocks of a run cover the sentences, none is empty and none is
    longer than [max_sentences] (than one sentence when [max_sentences]
    is below one). *)
Lemma segment_blocks_spec :
  ∃ blocks,
    segment_blocks cfg sentences vectors = Some blocks
    ∧ concat blocks = sentences
    ∧ Forall (λ b, b ≠ []) blocks
    ∧ Forall (λ b, Z.of_nat (length b) ≤ Z.max 1 (max_sentences cfg)) blocks.
Proof.
  destruct (decide (sentences = [])) as [Hs|Hs].
  - exists []. unfold segment_blocks, run. rewrite Hs. by repeat split.
  - destruct (segment_blocks_final Hs) as (st & _ & Hinv & Hrun).
    destruct Hinv as [Hc Hne Hcne Hb Hcb _].
    exists (paragraphs st ++ [current_para st]). split; [done|].
    rewrite firstn_all in Hc. split.
    { rewrite concat_app. simpl. by rewrite app_nil_r. }
    split; apply Forall_app; split; try done; by apply Forall_singleton.
Qed.
End Results.

(** ** Cuts and sentence texts *)

Section SameCuts.
Context `{Num : Numeric}.
Variable cfg : config.
Variables (sentences1 sentences2 : list str) (vectors : list vec).
Hypothesis same_count : length sentences1 = length sentences2.

Lemma loop_body_same_cuts i st1 st2 :
  same_cuts st1 st2 →
  option_Forall2 same_cuts
    (loop_body id cfg sentences1 vectors i st1)
    (loop_body id cfg sentences2 vectors i st2).
Proof.
  intros (Hp & Hc & Hw). unfold loop_body.
  destruct (vectors !! i) as [v|]; simpl; [|constructor].
  destruct (norms vectors !! i) as [n|]; simpl; [|constructor].
  destruct (sentences1 !! i) as [s1|] eqn:H1,
           (sentences2 !! i) as [s2|] eqn:H2; simpl.
  - constructor. unfold should_break. rewrite Hw, Hc.
    destruct (_ || _); repeat split; simpl; try done.
    + by rewrite !fmap_app, Hp; simpl; rewrite Hc.
    + rewrite !length_app. simpl. by rewrite Hc.
  - apply lookup_lt_Some in H1. apply lookup_ge_None in H2. lia.
  - apply lookup_lt_Some in H2. apply lookup_ge_None in H1. lia.
  - constructor.
Qed.

Lemma state_at_same_cuts i :
  option_Forall2 same_cuts
    (state_at id cfg sentences1 vectors i)
    (state_at id cfg sentences2 vectors i).
Proof.
  unfold state_at, init_state.
  destruct (sentences1 !! 0%nat) as [a1|] eqn:H1,
           (sentences2 !! 0%nat) as [a2|] eqn:H2; simpl.
  - destruct (vectors !! 0%nat) as [v0|]; simpl; [|constructor].
    apply for_each_related; [done|].
    intros j s1 s2. apply loop_body_same_cuts.
  - apply lookup_lt_Some in H1. apply lookup_ge_None in H2. lia.
  - apply lookup_lt_Some in H2. apply lookup_ge_None in H1. lia.
  - constructor.
Qed.
End SameCuts.

Lemma block_start_lengths {A B} (blocks1 : list (list A))
    (blocks2 : list (list B)) (k : nat) :
  length <$> blocks1 = length <$> blocks2 →
  block_start blocks1 k = block_start blocks2 k.
Proof.
  intros Hl. unfold block_start. rewrite !length_concat.
  change (map length ?l) with (length <$> l).
  by rewrite !fmap_take, Hl.
Qed.

(** ** The window *)

Section Window.
Context `{Num : Numeric}.

Lemma spec_window_length (w : Z) (vectors : list vec) (s i : nat) :
  (i ≤ length vectors)%nat →
  length (spec_window w vectors s i) = Nat.min (Z.to_nat w) (i - s).
Proof. intros Hi. unfold spec_window. rewrite slice_length by done. lia. Qed.

Lemma spec_window_lookup (w : Z) (vectors : list vec) (s i j : nat) (v : vec) :
  (i ≤ length vectors)%nat →
  spec_window w vectors s i !! j = Some v →
  (i - Nat.min (Z.to_nat w) (i - s) + j < i)%nat
  ∧ vectors !! (i - Nat.min (Z.to_nat w) (i - s) + j)%nat = Some v.
Proof.
  intros Hi Hj. unfold spec_window, slice in Hj.
  rewrite lookup_drop in Hj. apply lookup_take_Some in Hj as [Hv Hlt].
  done.
Qed.

Lemma tail_slice_short {A} (w : Z) (l : list A) :
  0 < w → (length l ≤ Z.to_nat w)%nat → tail_slice w l = l.
Proof.
  intros Hw Hl. rewrite tail_slice_pos by done.
  by replace (length l - Z.to_nat w)%nat with 0%nat by lia.
Qed.

Lemma avg_of_similarities (norm_i : scalar) (v_i : vec) (window : list vec) :
  window ≠ [] → norm_i = np_norm v_i →
  avg_of (similarities_with norm_i v_i window)
  = np_mean ((λ u, cosine_similarity u v_i) <$> window).
Proof. intros Hw ->. by destruct window. Qed.
End Window.

(** ** The scan of [re.sub] *)

Section MarkerScan.
Import Marker.
Variable is_digit : N → bool.
Hypothesis line_feed_no_digit : is_digit NL = false.
Hypothesis bracket_no_digit : is_digit LBRACKET = false.

Local Abbreviation is_marker := (is_marker is_digit).
Local Abbreviation matches_at := (matches_at is_digit).
Local Abbreviation re_sub := (re_sub is_digit).

Lemma is_marker_length m : is_marker m = true → length m = 7%nat.
Proof. by do 8 (destruct m as [|? m]; try done). Qed.

Lemma re_sub_marker m after :
  is_marker m = true →
  re_sub (m ++ after) = BLANK ++ m ++ BLANK ++ re_sub after.
Proof.
  intros Hm. pose proof (is_marker_length m Hm) as Hl.
  do 8 (destruct m as [|? m]; try done). simpl. simpl in Hm. by rewrite Hm.
Qed.

Lemma re_sub_copy c rest :
  matches_at (c :: rest) = false → re_sub (c :: rest) = c :: re_sub rest.
Proof.
  intros Hm. unfold Marker.matches_at in Hm.
  do 6 (destruct rest as [|? rest]; [done|]). simpl in *. by rewrite Hm.
Qed.

Lemma matches_at_split s :
  matches_at s = true →
  ∃ m after, s = m ++ after ∧ is_marker m = true.
Proof.
  intros Hm. exists (take 7 s), (drop 7 s). by rewrite take_drop.
Qed.

(** The scan, as an induction principle. *)
Lemma re_sub_ind (Q : str → Prop) :
  Q [] →
  (∀ c rest, matches_at (c :: rest) = false → Q rest → Q (c :: rest)) →
  (∀ m after, is_marker m = true → Q after → Q (m ++ after)) →
  ∀ s, Q s.
Proof.
  intros Hnil Hcopy Hmark s.
  induction s as [s IH] using (induction_ltof1 _ length). unfold ltof in IH.
  destruct s as [|c rest]; [done|].
  destruct (matches_at (c :: rest)) eqn:Hm.
  - destruct (matches_at_split _ Hm) as (m & after & Hs & Hmk).
    rewrite Hs. apply Hmark; [done|]. apply IH.
    rewrite Hs, length_app, (is_marker_length m Hmk). lia.
  - apply Hcopy; [done|]. apply IH. simpl. lia.
Qed.

(** A marker holds no line feed, and [[] only as its first character. *)
Lemma is_marker_chars m :
  is_marker m = true →
  ∃ c1 c2 c3 c4 c5 c6,
    m = [LBRACKET; c1; c2; c3; c4; c5; c6]
    ∧ Forall (λ c, c ≠ NL ∧ c ≠ LBRACKET) [c1; c2; c3; c4; c5; c6].
Proof.
  intros Hm. pose proof (is_marker_length m Hm) as Hl.
  do 8 (destruct m as [|? m]; try done). simpl in Hm.
  repeat (apply andb_prop in Hm as [Hm ?]).
  repeat match goal with H : (_ =? _)%N = true |- _ => apply N.eqb_eq in H end.
  subst. eexists _, _, _, _, _, _. split; [done|].
  repeat constructor; try (intros ->; congruence); done.
Qed.

Lemma matches_at_head s :
  matches_at s = true → ∃ rest, s = LBRACKET :: rest.
Proof.
  intros Hm. destruct (matches_at_split s Hm) as (m & after & -> & Hmk).
  destruct (is_marker_chars m Hmk) as (?&?&?&?&?&?& -> & _). by eexists.
Qed.

(** A stretch of the output without line feed was copied from the input. *)
Lemma re_sub_plain_prefix w s :
  Forall (λ c, c ≠ NL) w → w `prefix_of` re_sub s → w `prefix_of` s.
Proof.
  revert s. induction w as [|c w IH]; intros s Hplain Hpre.
  { apply prefix_nil. }
  apply Forall_cons in Hplain as [Hc Hw].
  destruct s as [|c0 rest].
  { destruct Hpre as [k Hk]. done. }
  destruct (matches_at (c0 :: rest)) eqn:Hm.
  - destruct (matches_at_split _ Hm) as (m & after & Hs & Hmk).
    rewrite Hs, (re_sub_marker m after Hmk) in Hpre.
    destruct Hpre as [k Hk]. simpl in Hk. by simplify_eq.
  - rewrite (re_sub_copy _ _ Hm) in Hpre.
    destruct Hpre as [k Hk]. simpl in Hk. simplify_eq.
    apply prefix_cons, IH; [done|]. by exists k.
Qed.

(** No marker of the output starts in copied text and runs on. *)
Lemma matches_at_copied c rest :
  matches_at (c :: re_sub rest) = true → matches_at (c :: rest) = true.
Proof.
  intros Hm. unfold Marker.matches_at in *.
  change (take 7 (c :: re_sub rest)) with (c :: take 6 (re_sub rest)) in Hm.
  change (take 7 (c :: rest)) with (c :: take 6 rest).
  destruct (is_marker_chars _ Hm) as (c1&c2&c3&c4&c5&c6& Heq & Hch).
  injection Heq as -> Heq.
  assert ([c1; c2; c3; c4; c5; c6] `prefix_of` rest) as [k ->].
  { apply re_sub_plain_prefix.
    - eapply Forall_impl; [exact Hch|]. by intros ? [? _].
    - rewrite <- Heq. apply prefix_take. }
  rewrite Heq in Hm. exact Hm.
Qed.
End MarkerScan.

(** ** One iteration of the loop *)

Section Iteration.
Context `{Num : Numeric}.
Context {P : Type} (emit : list str → P).
Variable cfg : config.
Variables (sentences : list str) (vectors : list vec).

(** Iteration [i] decides from the average over the window and from the
    length of the open paragraph, and from nothing else. *)
Lemma loop_body_next i st v_i s_i :
  vectors !! i = Some v_i → sentences !! i = Some s_i →
  loop_body emit cfg sentences vectors i st
  = Some (next_state emit cfg st s_i v_i
            (should_break cfg
               (avg_of (similarities_with (np_norm v_i) v_i
                          (tail_slice (window_size cfg) (prev_vectors st))))
               (current_para st))).
Proof.
  intros Hv Hs. unfold loop_body, norms, next_state.
  rewrite Hv, list_lookup_fmap, Hv, Hs. simpl.
  by destruct (should_break _ _ _).
Qed.

(** The state at the head of iteration [i + 1] is what iteration [i]
    makes of the state at its head. *)
Lemma state_at_S i :
  (1 ≤ i)%nat →
  state_at emit cfg sentences vectors (S i)
  = st ← state_at emit cfg sentences vectors i;
    loop_body emit cfg sentences vectors i st.
Proof.
  intros Hi. unfold state_at.
  assert (seq 1 (S i - 1) = seq 1 (i - 1) ++ [i]) as ->.
  { replace (S i - 1)%nat with (S (i - 1)) by lia. rewrite seq_S.
    do 2 f_equal. lia. }
  destruct (init_state _ _) as [st0|]; [|done].
  cbn [mbind option_bind]. rewrite for_each_app.
  destruct (for_each _ _ st0) as [st|]; [|done].
  cbn [mbind option_bind]. rewrite for_each_cons.
  by destruct (loop_body emit cfg sentences vectors i st).
Qed.
End Iteration.

(** ** The run on the heap refines the run on values *)

Section StoreRefinement.
Context `{Num : Numeric}.
Variable cfg : config.
Variables (sentences : list str) (vectors : list vec).
Variables (sentences_ref vectors_ref : Store.loc).
Variable h0 : gmap Store.loc Store.obj.
Hypothesis sentences_at : h0 !! sentences_ref = Some (Store.Strs sentences).
Hypothesis vectors_at : h0 !! vectors_ref = Some (Store.Vecs vectors).

Lemma fresh_lookup (h : gmap Store.loc Store.obj) l o :
  h !! l = Some o → l ≠ fresh (dom h).
Proof.
  intros Hl ->. apply (is_fresh (dom h)). apply elem_of_dom. by eexists.
Qed.

Lemma holds_lookup h f st l o :
  holds h0 h f st → h0 !! l = Some o → h !! l = Some o.
Proof.
  intros Hh Hl. rewrite (holds_old _ _ _ _ Hh l); [done|].
  apply elem_of_dom. by eexists.
Qed.

Lemma loop_body_refines i h f st st' :
  holds h0 h f st →
  loop_body (join SPACE) cfg sentences vectors i st = Some st' →
  ∃ f' h',
    Store.loop_body cfg sentences_ref vectors_ref (np_norm <$> vectors) i (f, h)
    = Some (f', h')
    ∧ holds h0 h' f' st'.
Proof.
  intros Hh Hstep.
  pose proof (holds_lookup _ _ _ _ _ Hh sentences_at) as Hs.
  pose proof (holds_lookup _ _ _ _ _ Hh vectors_at) as Hv.
  destruct Hh as [Hold Hp Hc Hw Hnp Hnc Hnw Hpc].
  unfold loop_body, norms in Hstep. unfold Store.loop_body.
  assert (Store.read_vecs vectors_ref h = Some vectors) as ->
    by (unfold Store.read_vecs; by rewrite Hv).
  assert (Store.read_vecs (Store.prev_vectors_ref f) h = Some (prev_vectors st))
    as -> by (unfold Store.read_vecs; by rewrite Hw).
  assert (Store.read_strs (Store.current_para_ref f) h = Some (current_para st))
    as -> by (unfold Store.read_strs; by rewrite Hc).
  assert (Store.read_strs sentences_ref h = Some sentences) as ->
    by (unfold Store.read_strs; by rewrite Hs).
  simpl.
  destruct (vectors !! i) as [v_i|]; simpl in *; [|done].
  destruct ((np_norm <$> vectors) !! i) as [n_i|]; simpl in *; [|done].
  destruct (sentences !! i) as [s_i|]; simpl in *; [|done].
  injection Hstep as <-.
  destruct (should_break _ _ _); simpl.
  - unfold Store.append_str, Store.read_strs. rewrite Hp. simpl.
    unfold Store.alloc. simpl.
    set (h1 := <[Store.paragraphs_ref f := _]> h).
    set (c := fresh (dom h1)). set (h2 := <[c := _]> h1).
    set (w := fresh (dom h2)). set (h3 := <[w := _]> h2).
    unfold Store.read_vecs. subst h3. rewrite lookup_insert_eq. simpl.
    set (h3 := <[w := _]> h2). set (w' := fresh (dom h3)).
    eexists _, _. split; [done|].
    assert (c ∉ dom h1) as Hfc by apply is_fresh.
    assert (w ∉ dom h2) as Hfw by apply is_fresh.
    assert (w' ∉ dom h3) as Hfw' by apply is_fresh.
    assert (dom h0 ⊆ dom h) as Hsub.
    { intros l Hl. apply elem_of_dom. rewrite (Hold l Hl). by apply elem_of_dom. }
    assert (Store.paragraphs_ref f ∈ dom h) as Hpd by (apply elem_of_dom; eauto).
    subst h3 h2 h1. rewrite !dom_insert_L in Hfc, Hfw, Hfw'.
    clearbody c w w'.
    assert (c ≠ Store.paragraphs_ref f ∧ w ≠ Store.paragraphs_ref f
            ∧ w' ≠ Store.paragraphs_ref f ∧ w ≠ c ∧ w' ≠ c ∧ w' ≠ w)
      as (? & ? & ? & ? & ? & ?) by (clear -Hfc Hfw Hfw' Hpd; set_solver).
    split; simpl.
    + intros l Hl. rewrite <- (Hold l Hl).
      assert (l ≠ Store.paragraphs_ref f ∧ l ≠ c ∧ l ≠ w ∧ l ≠ w')
        as (? & ? & ? & ?) by (clear -Hfc Hfw Hfw' Hsub Hnp Hl; set_solver).
      by rewrite !lookup_insert_ne by done.
    + do 3 (rewrite lookup_insert_ne by done). by rewrite lookup_insert_eq.
    + do 2 (rewrite lookup_insert_ne by done). by rewrite lookup_insert_eq.
    + by rewrite lookup_insert_eq.
    + done.
    + clear -Hfc Hsub. set_solver.
    + clear -Hfw' Hsub. set_solver.
    + done.
  - unfold Store.append_str, Store.read_strs. rewrite Hc. simpl.
    assert (Store.prev_vectors_ref f ≠ Store.current_para_ref f) as Hwc.
    { intros Heq. rewrite Heq in Hw. congruence. }
    assert (Store.prev_vectors_ref f ≠ Store.paragraphs_ref f) as Hwp.
    { intros Heq. rewrite Heq in Hw. congruence. }
    unfold Store.append_vec, Store.read_vecs.
    rewrite lookup_insert_ne by done. rewrite Hw. simpl.
    rewrite lookup_insert_eq. unfold Store.alloc. simpl.
    set (h2 := <[Store.prev_vectors_ref f := _]> _).
    set (w' := fresh (dom h2)).
    eexists _, _. split; [done|].
    assert (w' ∉ dom h2) as Hfw' by apply is_fresh.
    assert (dom h0 ⊆ dom h) as Hsub.
    { intros l Hl. apply elem_of_dom. rewrite (Hold l Hl). by apply elem_of_dom. }
    assert (Store.paragraphs_ref f ∈ dom h) as Hpd by (apply elem_of_dom; eauto).
    assert (Store.current_para_ref f ∈ dom h) as Hcd by (apply elem_of_dom; eauto).
    subst h2. rewrite !dom_insert_L in Hfw'. clearbody w'.
    assert (w' ≠ Store.paragraphs_ref f ∧ w' ≠ Store.current_para_ref f
            ∧ w' ≠ Store.prev_vectors_ref f) as (? & ? & ?)
      by (clear -Hfw' Hpd; set_solver).
    split; simpl.
    + intros l Hl. rewrite <- (Hold l Hl).
      assert (l ≠ Store.prev_vectors_ref f ∧ l ≠ Store.current_para_ref f
              ∧ l ≠ w') as (? & ? & ?)
        by (clear -Hfw' Hsub Hnc Hnw Hl; set_solver).
      by rewrite !lookup_insert_ne by done.
    + by rewrite !lookup_insert_ne by done.
    + do 2 (rewrite lookup_insert_ne by done). by rewrite lookup_insert_eq.
    + by rewrite lookup_insert_eq.
    + done.
    + done.
    + clear -Hfw' Hsub. set_solver.
    + done.
Qed.

Lemma for_each_refines range h f st st' :
  holds h0 h f st →
  for_each (loop_body (join SPACE) cfg sentences vectors) range st = Some st' →
  ∃ f' h',
    for_each (Store.loop_body cfg sentences_ref vectors_ref (np_norm <$> vectors))
      range (f, h)
    = Some (f', h')
    ∧ holds h0 h' f' st'.
Proof.
  revert h f st. induction range as [|i range IH]; intros h f st Hh Hrun.
  - simpl in *. simplify_eq. by eexists _, _.
  - simpl in Hrun.
    destruct (loop_body (join SPACE) cfg sentences vectors i st) as [st1|] eqn:Hb;
      simpl in Hrun; [|done].
    destruct (loop_body_refines i h f st st1 Hh Hb) as (f1 & h1 & Hb' & Hh1).
    rewrite for_each_cons, Hb'. simpl. by apply (IH h1 f1 st1).
Qed.

(** The run on the heap returns the joined paragraphs of the run on
    values, and leaves every object of the initial heap as it was. *)
Lemma run_refines paras :
  segment cfg sentences vectors = Some paras →
  ∃ h', Store.run cfg sentences_ref vectors_ref h0 = Some (join BLANK paras, h')
        ∧ ∀ l, l ∈ dom h0 → h' !! l = h0 !! l.
Proof.
  intros Hseg. unfold Store.run.
  assert (Store.read_strs sentences_ref h0 = Some sentences) as ->
    by (unfold Store.read_strs; by rewrite sentences_at).
  simpl. unfold segment, run in Hseg.
  destruct (decide (sentences = [])) as [Hnil|Hne].
  { rewrite bool_decide_eq_true_2 by done. rewrite Hnil in Hseg.
    simplify_eq. by exists h0. }
  rewrite bool_decide_eq_false_2 by done.
  assert (state_at (join SPACE) cfg sentences vectors (length sentences)
          ≫= (λ st, Some (flush (join SPACE) st)) = Some paras) as Hrun.
  { by destruct sentences. }
  clear Hseg. unfold state_at, init_state in Hrun.
  assert (Store.read_vecs vectors_ref h0 = Some vectors) as ->
    by (unfold Store.read_vecs; by rewrite vectors_at).
  simpl. unfold Store.alloc. simpl.
  destruct (sentences !! 0%nat) as [s0|]; simpl in *; [|done].
  destruct (vectors !! 0%nat) as [v0|]; simpl in *; [|done].
  set (p := fresh (dom h0)). set (h1 := <[p := Store.Strs []]> h0).
  set (c := fresh (dom h1)). set (h2 := <[c := Store.Strs [s0]]> h1).
  set (w := fresh (dom h2)). set (h3 := <[w := Store.Vecs [v0]]> h2).
  destruct (for_each (loop_body (join SPACE) cfg sentences vectors)
              (seq 1 (length sentences - 1))
              {| paragraphs := []; current_para := [s0]; prev_vectors := [v0] |})
    as [st|] eqn:Hloop; simpl in Hrun; [|done].
  assert (holds h0 h3
            {| Store.paragraphs_ref := p; Store.current_para_ref := c;
               Store.prev_vectors_ref := w |}
            {| paragraphs := []; current_para := [s0]; prev_vectors := [v0] |})
    as Hinit.
  { assert (p ∉ dom h0) as Hfp by apply is_fresh.
    assert (c ∉ dom h1) as Hfc by apply is_fresh.
    assert (w ∉ dom h2) as Hfw by apply is_fresh.
    subst h3 h2 h1. rewrite !dom_insert_L in Hfc, Hfw. clearbody p c w.
    assert (c ≠ p ∧ w ≠ p ∧ w ≠ c) as (? & ? & ?)
      by (clear -Hfc Hfw; set_solver).
    split; simpl.
    - intros l Hl.
      assert (l ≠ p ∧ l ≠ c ∧ l ≠ w) as (? & ? & ?)
        by (clear -Hfp Hfc Hfw Hl; set_solver).
      by rewrite !lookup_insert_ne by done.
    - do 2 (rewrite lookup_insert_ne by done). by rewrite lookup_insert_eq.
    - rewrite lookup_insert_ne by done. by rewrite lookup_insert_eq.
    - by rewrite lookup_insert_eq.
    - done.
    - clear -Hfc. set_solver.
    - clear -Hfw. set_solver.
    - done. }
  destruct (for_each_refines _ _ _ _ _ Hinit Hloop) as (f' & h' & -> & Hh).
  simpl. destruct Hh as [Hold Hp Hc _ Hnp _ _ Hpc].
  assert (Store.read_strs (Store.current_para_ref f') h' = Some (current_para st))
    as -> by (unfold Store.read_strs; by rewrite Hc).
  simpl.
  injection Hrun as <-. unfold flush.
  destruct (current_para st) as [|s1 rest] eqn:Hcur; simpl.
  - unfold Store.read_strs. rewrite Hp. simpl. by exists h'.
  - unfold Store.append_str, Store.read_strs. rewrite Hp. simpl.
    rewrite lookup_insert_eq. simpl. eexists. split; [done|].
    intros l Hl. rewrite lookup_insert_ne; [by apply Hold|].
    intros <-. done.
Qed.
End StoreRefinement.

(** ** Arithmetic on zeros and NaN *)

Section ZeroNormFacts.
Import Binary32 ZeroNorm.

Lemma null_add x y : null x = true → null y = true → null (add x y) = true.
Proof. by destruct x as [[]|[]| |[]], y as [[]|[]| |[]]. Qed.

Lemma null_mul_l x y : is_zero x = true → null (mul x y) = true.
Proof. by destruct x as [[]|[]| |[]], y as [[]|[]| |[]]. Qed.

Lemma null_mul_r x y : is_zero y = true → null (mul x y) = true.
Proof. by destruct x as [[]|[]| |[]], y as [[]|[]| |[]]. Qed.

Lemma null_div x y : null x = true → null y = true → div x y = nan.
Proof. by destruct x as [[]|[]| |[]], y as [[]|[]| |[]]. Qed.

Lemma div_by_zero x y : is_zero y = true → not_finite (div x y) = true.
Proof. by destruct x as [[]|[]| |[]], y as [[]|[]| |[]]. Qed.

Lemma add_nan_l y : add nan y = nan.
Proof. done. Qed.

Lemma add_nan_r x : add x nan = nan.
Proof. by destruct x as [[]|[]| |[]]. Qed.

Lemma div_nan_l y : div nan y = nan.
Proof. done. Qed.

Lemma lt_nan_l y : lt nan y = false.
Proof. done. Qed.

Lemma dot_acc_null_l acc u v :
  null acc = true → zero_row u = true →
  null (foldl (λ a xy, add a (mul xy.1 xy.2)) acc (zip u v)) = true.
Proof.
  revert acc v. induction u as [|x u IH]; intros acc v Hacc Hu; [done|].
  destruct v as [|y v]; [done|]. simpl in *.
  apply andb_prop in Hu as [Hx Hu].
  apply IH; [|done]. apply null_add; [done|]. by apply null_mul_l.
Qed.

Lemma dot_acc_null_r acc u v :
  null acc = true → zero_row v = true →
  null (foldl (λ a xy, add a (mul xy.1 xy.2)) acc (zip u v)) = true.
Proof.
  revert acc u. induction v as [|y v IH]; intros acc u Hacc Hv.
  { by destruct u. }
  destruct u as [|x u]; [done|]. simpl in *.
  apply andb_prop in Hv as [Hy Hv].
  apply IH; [|done]. apply null_add; [done|]. by apply null_mul_r.
Qed.

Lemma dot_null_l u v : zero_row u = true → null (dot u v) = true.
Proof. by apply dot_acc_null_l. Qed.

Lemma dot_null_r u v : zero_row v = true → null (dot u v) = true.
Proof. by apply dot_acc_null_r. Qed.

Lemma dot_self_zero_acc u :
  zero_row u = true →
  foldl (λ a xy, add a (mul xy.1 xy.2)) zero (zip u u) = zero.
Proof.
  induction u as [|x u IH]; intros Hu; [done|]. simpl in *.
  apply andb_prop in Hu as [Hx Hu].
  destruct x as [[]| | |]; try done; simpl; by apply IH.
Qed.

(** The norm of a row of zeros is zero. *)
Lemma norm_zero_row u : zero_row u = true → norm u = zero.
Proof. intros Hu. unfold norm, dot. by rewrite dot_self_zero_acc. Qed.

(** The similarity of a row of zeros with any row is NaN. *)
Lemma cosine_zero_row u v :
  zero_row u = true ∨ zero_row v = true → cosine_similarity u v = nan.
Proof.
  intros Huv. unfold cosine_similarity. simpl. apply null_div.
  - destruct Huv; [by apply dot_null_l|by apply dot_null_r].
  - destruct Huv as [Hu|Hv].
    + rewrite (norm_zero_row u Hu). by apply null_mul_r.
    + rewrite (norm_zero_row v Hv). by apply null_mul_l.
Qed.

Lemma foldl_add_nan l : foldl add nan l = nan.
Proof. induction l as [|x l IH]; [done|]. exact IH. Qed.

Lemma foldl_add_has_nan acc l :
  nan ∈ l → foldl add acc l = nan.
Proof.
  revert acc. induction l as [|x l IH]; intros acc Hl.
  { by apply elem_of_nil in Hl. }
  apply elem_of_cons in Hl as [<-|Hl]; simpl.
  - by rewrite add_nan_r, foldl_add_nan.
  - by apply IH.
Qed.

(** One NaN among the similarities makes their mean NaN. *)
Lemma mean_has_nan l : nan ∈ l → mean l = nan.
Proof.
  intros Hl. unfold mean. assert (sum l = nan) as ->; [|done].
  destruct l as [|x l]; [by apply elem_of_nil in Hl|].
  apply elem_of_cons in Hl as [<-|Hl]; simpl.
  - apply foldl_add_nan.
  - by apply foldl_add_has_nan.
Qed.
End ZeroNormFacts.

(** ** Single precision: division by two and the mean of two numbers *)

Lemma fexp_normal z : -125 <= z → fexp Binary32.prec Binary32.emax z = z - 24.
Proof. intros. unfold fexp, emin, Binary32.prec, Binary32.emax. lia. Qed.

Lemma div_eucl_pair a b : Z.div_eucl a b = (a / b, a mod b).
Proof. unfold Z.div, Z.modulo. by destruct (Z.div_eucl a b). Qed.

Lemma digits2_pos_size p : digits2_pos p = Pos.size p.
Proof. induction p; simpl; by f_equal. Qed.

Lemma digits2_pos_log2 p : Z.pos (digits2_pos p) = Z.log2 (Z.pos p) + 1.
Proof.
  destruct p; simpl; rewrite ?digits2_pos_size; lia.
Qed.

Lemma digits2_pos_24 p :
  digits2_pos p = 24%positive ↔ 2 ^ 23 <= Z.pos p < 2 ^ 24.
Proof.
  split.
  - intros Hd. pose proof (digits2_pos_log2 p) as Hl. rewrite Hd in Hl.
    pose proof (Z.log2_spec (Z.pos p) ltac:(lia)) as Hs.
    replace (Z.log2 (Z.pos p)) with 23 in Hs by lia. exact Hs.
  - intros Hp. pose proof (Z.log2_unique (Z.pos p) 23 ltac:(lia) Hp) as Hl.
    pose proof (digits2_pos_log2 p) as Hd. rewrite Hl in Hd. lia.
Qed.

(** An even 25-bit mantissa is halved exactly. *)
Lemma round_even m ex :
  digits2_pos m = 24%positive → -149 <= ex <= 100 →
  binary_round_aux Binary32.prec Binary32.emax false (Z.pos m~0) ex loc_Exact
  = S754_finite false m (ex + 1).
Proof.
  intros Hd He. unfold binary_round_aux, shr_fexp.
  cbn [Zdigits2 digits2_pos shr_record_of_loc]. rewrite Hd.
  rewrite fexp_normal by lia.
  replace (Z.pos (Pos.succ 24) + ex - 24 - ex) with 1 by lia.
  cbn [shr iter_pos shr_1 orb shr_m loc_of_shr_record round_nearest_even
       Zdigits2 shr_record_of_loc].
  rewrite Hd. rewrite fexp_normal by lia.
  replace (24 + (ex + 1) - 24 - (ex + 1)) with 0 by lia.
  cbn [shr shr_m].
  unfold Binary32.emax, Binary32.prec. replace (ex + 1 <=? 128 - 24) with true by lia. done.
Qed.

Lemma digits2_pos_range p n :
  0 < n → Z.pos (digits2_pos p) = n ↔ 2 ^ (n - 1) <= Z.pos p < 2 ^ n.
Proof.
  intros Hn. rewrite digits2_pos_log2. split.
  - intros Hd. pose proof (Z.log2_spec (Z.pos p) ltac:(lia)) as Hs.
    replace (Z.log2 (Z.pos p)) with (n - 1) in Hs by lia.
    replace (Z.succ (n - 1)) with n in Hs by lia. exact Hs.
  - intros Hp. rewrite (Z.log2_unique (Z.pos p) (n - 1)); [lia|lia|].
    replace (Z.succ (n - 1)) with n by lia. exact Hp.
Qed.

(** Division by a power of two. *)
Lemma div_pow2 m e e2 :
  digits2_pos m = 24%positive → -90 <= e <= 90 → -30 <= e2 <= 30 →
  Binary32.div (S754_finite false m e) (S754_finite false 8388608 e2)
  = S754_finite false m (e - e2 - 23).
Proof.
  intros Hd He He2. unfold Binary32.div, SFdiv, SFdiv_core_binary.
  cbn [Zdigits2 digits2_pos]. rewrite Hd.
  change (Z.pos (Pos.succ _)) with 24.
  replace (24 + e - (24 + e2)) with (e - e2) by lia.
  rewrite fexp_normal by lia.
  rewrite Z.min_l by lia.
  replace (e - e2 - (e - e2 - 24)) with 24 by lia.
  cbv beta iota.
  rewrite div_eucl_pair.
  assert (Z.pos m ≪ 24 = Z.pos m~0 * 8388608) as ->.
  { rewrite Z.shiftl_mul_pow2 by lia. change (2 ^ 24) with 16777216. lia. }
  rewrite Z.div_mul, Z.mod_mul by lia.
  cbn [xorb]. change (new_location 8388608 0) with loc_Exact.
  rewrite round_even by (done || lia). f_equal. lia.
Qed.

(** A 25-bit mantissa is rounded to 24 bits, to nearest, ties to even. *)
Lemma round_25 M ex :
  Z.pos (digits2_pos M) = 25 → Z.pos M <= 2 ^ 25 - 2 → -149 <= ex <= 100 →
  ∃ r,
    binary_round_aux Binary32.prec Binary32.emax false (Z.pos M) ex loc_Exact
    = S754_finite false r (ex + 1)
    ∧ digits2_pos r = 24%positive
    ∧ Z.pos M <= 2 * Z.pos r + 1 ∧ 2 * Z.pos r <= Z.pos M + 1.
Proof.
  intros Hd HM He.
  assert (∀ r, digits2_pos r = 24%positive →
            (let '(mrs, e') := shr_fexp Binary32.prec Binary32.emax (Z.pos r) (ex + 1) loc_Exact in
             match shr_m mrs with
             | 0 => S754_zero false
             | Z.pos m => if e' <=? Binary32.emax - Binary32.prec then S754_finite false m e'
                          else S754_infinity false
             | Z.neg _ => S754_nan
             end) = S754_finite false r (ex + 1)) as Hfinal.
  { intros r Hr. unfold shr_fexp. cbn [Zdigits2]. rewrite Hr.
    rewrite fexp_normal by lia.
    replace (24 + (ex + 1) - 24 - (ex + 1)) with 0 by lia.
    cbn [shr shr_m shr_record_of_loc]. unfold Binary32.emax, Binary32.prec.
    by replace (ex + 1 <=? 128 - 24) with true by lia. }
  unfold binary_round_aux. unfold shr_fexp at 1.
  cbn [Zdigits2 shr_record_of_loc]. rewrite Hd.
  rewrite fexp_normal by lia.
  replace (25 + ex - 24 - ex) with 1 by lia.
  destruct M as [p|p|]; cbn [digits2_pos] in Hd; [| |lia].
  - assert (digits2_pos p = 24%positive) as Hp by lia.
    cbn [shr iter_pos shr_1 orb shr_m loc_of_shr_record round_nearest_even].
    destruct p as [q|q|]; cbn [Z.even]; [| |done].
    + assert (digits2_pos (Pos.succ q~1) = 24%positive) as Hs.
      { assert (2 ^ (24 - 1) <= Z.pos q~1 < 2 ^ 24) as Hq
          by (apply digits2_pos_range; lia).
        assert (Z.pos (digits2_pos (Pos.succ q~1)) = 24); [|lia].
        apply digits2_pos_range; [lia|].
        change (2 ^ 25) with (2 * 2 ^ 24) in HM. lia. }
      exists (Pos.succ q~1). change (Z.pos q~1 + 1) with (Z.pos (Pos.succ q~1)).
      rewrite (Hfinal _ Hs). repeat split; try done; lia.
    + exists (q~0)%positive. rewrite (Hfinal _ Hp). repeat split; try done; lia.
  - assert (digits2_pos p = 24%positive) as Hp by lia.
    cbn [shr iter_pos shr_1 orb shr_m loc_of_shr_record round_nearest_even].
    exists p. rewrite (Hfinal _ Hp). repeat split; try done; lia.
Qed.

(** The sum of two numbers of one binade. *)
Lemma add_same_binade m1 m2 e :
  digits2_pos m1 = 24%positive → digits2_pos m2 = 24%positive →
  -149 <= e <= 100 →
  ∃ r,
    Binary32.add (S754_finite false m1 e) (S754_finite false m2 e)
    = S754_finite false r (e + 1)
    ∧ digits2_pos r = 24%positive
    ∧ Z.pos m1 + Z.pos m2 <= 2 * Z.pos r + 1
    ∧ 2 * Z.pos r <= Z.pos m1 + Z.pos m2 + 1.
Proof.
  intros H1 H2 He.
  assert (2 ^ 23 <= Z.pos m1 < 2 ^ 24) as R1 by by apply digits2_pos_24.
  assert (2 ^ 23 <= Z.pos m2 < 2 ^ 24) as R2 by by apply digits2_pos_24.
  assert (Z.pos (digits2_pos (m1 + m2)) = 25) as Hd.
  { apply digits2_pos_range; [lia|]. change (2 ^ (25 - 1)) with (2 * 2 ^ 23).
    change (2 ^ 25) with (2 * 2 ^ 24). lia. }
  unfold Binary32.add, SFadd. rewrite Z.min_id. unfold shl_align. rewrite Z.sub_diag.
  cbn [fst cond_Zopp]. change (Z.pos m1 + Z.pos m2) with (Z.pos (m1 + m2)).
  unfold binary_normalize, binary_round. rewrite Hd.
  rewrite fexp_normal by lia. unfold shl_align.
  replace (25 + e - 24 - e) with 1 by lia. cbv beta iota.
  destruct (round_25 (m1 + m2) e Hd) as (r & Hr & Hdr & Hlo & Hhi); [|lia|].
  { change (2 ^ 25) with (2 * 2 ^ 24). lia. }
  exists r. rewrite Hr. repeat split; try done; lia.
Qed.

(** The mean of two numbers of one binade lies between them. *)
Lemma mean_same_binade m1 m2 e :
  digits2_pos m1 = 24%positive → digits2_pos m2 = 24%positive →
  -90 <= e <= 80 →
  ∃ r,
    Binary32.div (Binary32.add (S754_finite false m1 e) (S754_finite false m2 e)) (Binary32.of_Z 2)
    = S754_finite false r e
    ∧ digits2_pos r = 24%positive
    ∧ Z.min (Z.pos m1) (Z.pos m2) <= Z.pos r <= Z.max (Z.pos m1) (Z.pos m2).
Proof.
  intros H1 H2 He.
  destruct (add_same_binade m1 m2 e H1 H2) as (r & -> & Hr & Hlo & Hhi); [lia|].
  exists r. change (Binary32.of_Z 2) with (S754_finite false 8388608 (-22)).
  rewrite div_pow2 by (done || lia).
  split; [f_equal; lia|]. split; [done|]. lia.
Qed.

(** ** The bands of similar and dissimilar sentences *)

Lemma ratio_values :
  Binary32.ratio 98 100 = S754_finite false 16441672 (-24)
  ∧ Binary32.ratio 9 100 = S754_finite false 12079596 (-27)
  ∧ Binary32.ratio 11 100 = S754_finite false 14763950 (-27)
  ∧ Binary32.threshold_065 = S754_finite false 10905190 (-24)
  ∧ Binary32.of_Z 1 = S754_finite false 8388608 (-23).
Proof. by vm_compute. Qed.

Lemma valid_digits m e :
  Binary32.valid (S754_finite false m e) = true → -125 <= e →
  digits2_pos m = 24%positive.
Proof.
  unfold Binary32.valid, valid_binary, bounded, canonical_mantissa.
  intros Hv He. apply andb_prop in Hv as [Hc _]. apply Z.eqb_eq in Hc.
  unfold fexp, emin, Binary32.prec, Binary32.emax in Hc. lia.
Qed.

Lemma compare_cont_spec a b :
  CompareSpec (Z.pos a = Z.pos b) (Z.pos a < Z.pos b) (Z.pos b < Z.pos a)
    (Pos.compare_cont Eq a b).
Proof.
  change (Pos.compare_cont Eq a b) with (a ?= b)%positive.
  destruct (Pos.compare_spec a b) as [H|H|H]; constructor;
    [by rewrite H|by apply Pos2Z.pos_lt_pos..].
Qed.

(** A similarity of about 0.99 has exponent [-24]. *)
Lemma about_099_inv s :
  Similar.about_099 s = true →
  ∃ m, s = S754_finite false m (-24)
       ∧ digits2_pos m = 24%positive ∧ 16441672 <= Z.pos m.
Proof.
  unfold Similar.about_099. destruct ratio_values as (-> & _ & _ & _ & ->).
  intros H. apply andb_prop in H as [H Hlt]. apply andb_prop in H as [Hv Hle].
  destruct s as [[]|[]| |[] m e]; try done.
  unfold Binary32.le, SFleb, SFcompare in Hle.
  unfold Binary32.lt, SFltb, SFcompare in Hlt.
  destruct (Z.compare_spec (-24) e) as [He|He|He]; [| |done].
  - subst e. exists m. split; [done|]. split; [by apply (valid_digits m (-24))|].
    destruct (compare_cont_spec 16441672 m) as [Hc|Hc|Hc]; try done;
      clear -Hc; lia.
  - destruct (Z.compare_spec e (-23)) as [He'|He'|He']; [|lia|done].
    subst e. pose proof (valid_digits m (-23) Hv ltac:(lia)) as Hd.
    apply digits2_pos_24 in Hd.
    destruct (compare_cont_spec m 8388608) as [Hc|Hc|Hc]; try done.
    change (2 ^ 23) with 8388608 in Hd. destruct Hd as [Hd _].
    clear -Hd Hc. lia.
Qed.

(** A similarity of about 0.1 has exponent [-27]. *)
Lemma about_01_inv s :
  Similar.about_01 s = true →
  ∃ m, s = S754_finite false m (-27) ∧ digits2_pos m = 24%positive.
Proof.
  unfold Similar.about_01. destruct ratio_values as (_ & -> & -> & _ & _).
  intros H. apply andb_prop in H as [H Hhi]. apply andb_prop in H as [Hv Hlo].
  destruct s as [[]|[]| |[] m e]; try done.
  unfold Binary32.le, SFleb, SFcompare in Hlo, Hhi.
  destruct (Z.compare_spec (-27) e) as [He|He|He]; [| |done].
  - subst e. exists m. split; [done|]. by apply (valid_digits m (-27)).
  - destruct (Z.compare_spec e (-27)) as [He'|He'|He']; [lia|lia|done].
Qed.

Section Decisions.
Import Binary32.

(** The mean of one similarity is that similarity. *)
Lemma mean_one m e :
  digits2_pos m = 24%positive → -90 <= e <= 90 →
  mean [S754_finite false m e] = S754_finite false m e.
Proof.
  intros Hd He. unfold mean, sum.
  change (of_Z (Z.of_nat (length [S754_finite false m e])))
    with (S754_finite false 8388608 (-23)).
  cbn [foldl]. rewrite div_pow2 by (done || lia). f_equal. lia.
Qed.

Lemma mean_two m1 m2 e :
  digits2_pos m1 = 24%positive → digits2_pos m2 = 24%positive →
  -90 <= e <= 80 →
  ∃ r,
    mean [S754_finite false m1 e; S754_finite false m2 e] = S754_finite false r e
    ∧ digits2_pos r = 24%positive
    ∧ Z.min (Z.pos m1) (Z.pos m2) <= Z.pos r <= Z.max (Z.pos m1) (Z.pos m2).
Proof. apply mean_same_binade. Qed.

(** One similar sentence in the window: no cut, unless the paragraph is
    full. *)
Lemma keep_after_one s (current : list str) :
  Similar.about_099 s = true → (length current < 4)%nat →
  should_break default (avg_of [s]) current = false.
Proof.
  intros Hs Hc. destruct (about_099_inv s Hs) as (m & -> & Hd & Hm).
  unfold should_break, avg_of. cbn [np_mean numeric np_lt threshold default
    default_config max_sentences].
  rewrite mean_one by (done || lia).
  destruct ratio_values as (_ & _ & _ & -> & _).
  apply orb_false_intro; [|lia].
  unfold lt, SFltb, SFcompare. cbn [Z.compare].
  destruct (compare_cont_spec m 10905190) as [Hcmp|Hcmp|Hcmp]; try done;
    clear -Hm Hcmp; lia.
Qed.

(** Two similar sentences in the window: no cut either. *)
Lemma keep_after_two s1 s2 (current : list str) :
  Similar.about_099 s1 = true → Similar.about_099 s2 = true →
  (length current < 4)%nat →
  should_break default (avg_of [s1; s2]) current = false.
Proof.
  intros H1 H2 Hc.
  destruct (about_099_inv s1 H1) as (m1 & -> & Hd1 & Hm1).
  destruct (about_099_inv s2 H2) as (m2 & -> & Hd2 & Hm2).
  unfold should_break, avg_of. cbn [np_mean numeric np_lt threshold default
    default_config max_sentences].
  destruct (mean_two m1 m2 (-24) Hd1 Hd2) as (r & -> & _ & Hr); [lia|].
  destruct ratio_values as (_ & _ & _ & -> & _).
  apply orb_false_intro; [|lia].
  unfold lt, SFltb, SFcompare. cbn [Z.compare].
  destruct (compare_cont_spec r 10905190) as [Hcmp|Hcmp|Hcmp]; try done;
    clear -Hm1 Hm2 Hr Hcmp; lia.
Qed.

(** Two dissimilar sentences in the window: a cut. *)
Lemma cut_after_two s1 s2 (current : list str) :
  Similar.about_01 s1 = true → Similar.about_01 s2 = true →
  should_break default (avg_of [s1; s2]) current = true.
Proof.
  intros H1 H2.
  destruct (about_01_inv s1 H1) as (m1 & -> & Hd1).
  destruct (about_01_inv s2 H2) as (m2 & -> & Hd2).
  unfold should_break, avg_of. cbn [np_mean numeric np_lt threshold default
    default_config max_sentences].
  destruct (mean_two m1 m2 (-27) Hd1 Hd2) as (r & -> & _ & Hr); [lia|].
  by destruct ratio_values as (_ & _ & _ & -> & _).
Qed.
End Decisions.

(** ** One iteration, by its decision *)

Lemma loop_body_decided `{Num : Numeric} {P} (emit : list str → P)
    (cfg : config) (sentences : list str) (vectors : list vec) (i : nat)
    (st : state P) (v_i : vec) (s_i : str) (window : list vec) (cut : bool) :
  vectors !! i = Some v_i → sentences !! i = Some s_i →
  tail_slice (window_size cfg) (prev_vectors st) = window →
  should_break cfg (avg_of ((λ u, cosine_similarity u v_i) <$> window))
    (current_para st) = cut →
  loop_body emit cfg sentences vectors i st
  = Some (if cut then
            {| paragraphs := paragraphs st ++ [emit (current_para st)];
               current_para := [s_i];
               prev_vectors := tail_slice (window_size cfg) [v_i] |}
          else
            {| paragraphs := paragraphs st;
               current_para := current_para st ++ [s_i];
               prev_vectors :=
                 tail_slice (window_size cfg) (prev_vectors st ++ [v_i]) |}).
Proof.
  intros Hv Hs Hw Hcut. unfold loop_body, norms.
  rewrite Hv, list_lookup_fmap, Hv, Hs. simpl. rewrite Hw.
  change (similarities_with (np_norm v_i) v_i window)
    with ((λ u, cosine_similarity u v_i) <$> window).
  rewrite Hcut. by destruct cut.
Qed.

(** * The properties of the specification *)

(** C1. Partition property. Whenever [vectors] has one row per sentence, the
    run returns paragraphs that are the [" "]-joins of consecutive blocks of
    sentences: the blocks, concatenated in order, are the sentence list
    itself, none is empty, and the [k]-th block is the slice of the
    sentences that starts where the blocks before it end, so the index
    ranges are adjacent, without gap or overlap. (Stated for every input,
    the empty one included.) *)
Theorem segment_partition `{Num : Numeric} (cfg : config)
    (sentences : list str) (vectors : list vec) :
  length vectors = length sentences →
  ∃ blocks : list (list str),
    segment_blocks cfg sentences vectors = Some blocks
    ∧ segment cfg sentences vectors = Some (join SPACE <$> blocks)
    ∧ concat blocks = sentences
    ∧ Forall (λ b, b ≠ []) blocks
    ∧ ∀ k b, blocks !! k = Some b →
        b = slice (block_start blocks k) (block_start blocks (S k)) sentences
        ∧ block_start blocks (S k) = (block_start blocks k + length b)%nat.
Proof.
  intros Hlen.
  destruct (segment_blocks_spec cfg sentences vectors Hlen)
    as (blocks & Hrun & Hcat & Hne & _).
  exists blocks. split; [done|]. split.
  { by rewrite segment_render, Hrun. }
  split; [done|]. split; [done|].
  intros k b Hb. rewrite (block_start_S _ _ _ Hb). split; [|done].
  rewrite <- Hcat. by apply block_is_slice.
Qed.

Lemma segment_partition_witness :
  ∃ blocks : list (list str),
    segment_blocks Binary32.default Sample.sentences Sample.vectors = Some blocks
    ∧ segment Binary32.default Sample.sentences Sample.vectors
      = Some (join SPACE <$> blocks)
    ∧ concat blocks = Sample.sentences
    ∧ Forall (λ b, b ≠ []) blocks
    ∧ ∀ k b, blocks !! k = Some b →
        b = slice (block_start blocks k) (block_start blocks (S k))
              Sample.sentences
        ∧ block_start blocks (S k) = (block_start blocks k + length b)%nat.
Proof.
  apply (segment_partition Binary32.default Sample.sentences Sample.vectors).
  reflexivity.
Defined.

(** C2. Length bound. With [max_sentences >= 1], every paragraph of the
    result holds at least one and at most [max_sentences] sentences. *)
Theorem paragraph_length_bound `{Num : Numeric} (cfg : config)
    (sentences : list str) (vectors : list vec) :
  1 ≤ max_sentences cfg →
  length vectors = length sentences →
  ∃ blocks : list (list str),
    segment_blocks cfg sentences vectors = Some blocks
    ∧ segment cfg sentences vectors = Some (join SPACE <$> blocks)
    ∧ Forall (λ b, 1 ≤ Z.of_nat (length b) ≤ max_sentences cfg) blocks.
Proof.
  intros Hmax Hlen.
  destruct (segment_blocks_spec cfg sentences vectors Hlen)
    as (blocks & Hrun & _ & Hne & Hbound).
  exists blocks. split; [done|]. split.
  { by rewrite segment_render, Hrun. }
  rewrite Forall_forall in Hne, Hbound. apply Forall_forall. intros b Hb.
  specialize (Hne b Hb). specialize (Hbound b Hb).
  destruct b; [done|]. simpl in *. lia.
Qed.

Lemma paragraph_length_bound_witness :
  ∃ blocks : list (list str),
    segment_blocks Binary32.default Sample.sentences Sample.vectors = Some blocks
    ∧ segment Binary32.default Sample.sentences Sample.vectors
      = Some (join SPACE <$> blocks)
    ∧ Forall (λ b, 1 ≤ Z.of_nat (length b) ≤ 4) blocks.
Proof.
  apply (paragraph_length_bound Binary32.default Sample.sentences Sample.vectors).
  - simpl. lia.
  - reflexivity.
Defined.

(** C7. Empty and single-sentence input. With no sentence the run returns no
    paragraph, and [process_large_text] the empty string; with one sentence
    it returns that sentence as its only paragraph, and
    [process_large_text] returns the sentence. Neither raises. *)
Theorem empty_and_single_input `{Num : Numeric} (cfg : config)
    (vectors : list vec) (s : str) (v : vec) (threshold_065 : scalar)
    (embed : str → vec) (text : str) :
  segment cfg [] vectors = Some []
  ∧ segment cfg [s] [v] = Some [s]
  ∧ process_large_text threshold_065 (λ _, []) embed text = Some []
  ∧ process_large_text threshold_065 (λ _, [s]) embed text = Some s.
Proof. done. Qed.

(** C8. Max-length boundary. With [max_sentences = 1], whatever the
    threshold, the window and the vectors, the paragraphs of the result are
    the sentences themselves, one per paragraph: there are as many
    paragraphs as sentences. *)
Theorem max_sentences_one `{Num : Numeric} (cfg : config)
    (sentences : list str) (vectors : list vec) :
  max_sentences cfg = 1 →
  length vectors = length sentences →
  segment_blocks cfg sentences vectors = Some ((λ s, [s]) <$> sentences)
  ∧ segment cfg sentences vectors = Some sentences
  ∧ ∀ paragraphs, segment cfg sentences vectors = Some paragraphs →
      length paragraphs = length sentences.
Proof.
  intros Hmax Hlen.
  destruct (segment_blocks_spec cfg sentences vectors Hlen)
    as (blocks & Hrun & Hcat & Hne & Hbound).
  assert (blocks = (λ s, [s]) <$> sentences) as ->.
  { rewrite <- Hcat. apply singleton_blocks.
    rewrite Forall_forall in Hne, Hbound. apply Forall_forall. intros b Hb.
    specialize (Hne b Hb). specialize (Hbound b Hb).
    destruct b; [done|]. simpl in *. lia. }
  assert (segment cfg sentences vectors = Some sentences) as Hseg.
  { by rewrite segment_render, Hrun; simpl; rewrite join_singleton. }
  split; [done|]. split; [done|].
  intros paragraphs Hp. congruence.
Qed.

Lemma max_sentences_one_witness :
  segment_blocks Sample.one_per_paragraph Sample.sentences Sample.vectors
  = Some ((λ s, [s]) <$> Sample.sentences)
  ∧ segment Sample.one_per_paragraph Sample.sentences Sample.vectors
    = Some Sample.sentences
  ∧ ∀ paragraphs,
      segment Sample.one_per_paragraph Sample.sentences Sample.vectors
      = Some paragraphs →
      length paragraphs = length Sample.sentences.
Proof.
  apply (max_sentences_one Sample.one_per_paragraph Sample.sentences
           Sample.vectors); reflexivity.
Defined.

(** C10. The cuts depend on the vectors only. Two runs over one array of
    vectors, on sentence lists of its length with any texts, both return,
    and their paragraphs hold the same numbers of sentences in the same
    order: the [k]-th paragraph starts at the same index in both. *)
Theorem cuts_depend_on_vectors_only `{Num : Numeric} (cfg : config)
    (sentences1 sentences2 : list str) (vectors : list vec) :
  length sentences1 = length vectors →
  length sentences2 = length vectors →
  ∃ blocks1 blocks2 : list (list str),
    segment_blocks cfg sentences1 vectors = Some blocks1
    ∧ segment_blocks cfg sentences2 vectors = Some blocks2
    ∧ segment cfg sentences1 vectors = Some (join SPACE <$> blocks1)
    ∧ segment cfg sentences2 vectors = Some (join SPACE <$> blocks2)
    ∧ length <$> blocks1 = length <$> blocks2
    ∧ ∀ k, block_start blocks1 k = block_start blocks2 k.
Proof.
  intros H1 H2.
  destruct (decide (sentences1 = [])) as [->|Hne1].
  { destruct sentences2; [|simpl in *; lia]. by exists [], []. }
  assert (sentences2 ≠ []) as Hne2.
  { intros ->. destruct sentences1; [done|simpl in *; lia]. }
  destruct (segment_blocks_final cfg sentences1 vectors (eq_sym H1) Hne1)
    as (st1 & Hst1 & _ & Hrun1).
  destruct (segment_blocks_final cfg sentences2 vectors (eq_sym H2) Hne2)
    as (st2 & Hst2 & _ & Hrun2).
  pose proof (state_at_same_cuts cfg sentences1 sentences2 vectors
                ltac:(lia) (length sentences1)) as Hrel.
  rewrite Hst1 in Hrel. replace (length sentences1) with (length sentences2) in Hrel by lia.
  rewrite Hst2 in Hrel. inversion Hrel as [?? (Hp & Hc & _)|]; subst.
  exists (paragraphs st1 ++ [current_para st1]),
         (paragraphs st2 ++ [current_para st2]).
  assert (length <$> paragraphs st1 ++ [current_para st1]
          = length <$> paragraphs st2 ++ [current_para st2]) as Hlen.
  { rewrite !fmap_app, Hp. simpl. by rewrite Hc. }
  repeat split; try done.
  - by rewrite segment_render, Hrun1.
  - by rewrite segment_render, Hrun2.
  - intros k. by apply block_start_lengths.
Qed.

Lemma cuts_depend_on_vectors_only_witness :
  ∃ blocks1 blocks2 : list (list str),
    segment_blocks Binary32.default Sample.sentences Sample.vectors = Some blocks1
    ∧ segment_blocks Binary32.default (reverse Sample.sentences) Sample.vectors
      = Some blocks2
    ∧ segment Binary32.default Sample.sentences Sample.vectors
      = Some (join SPACE <$> blocks1)
    ∧ segment Binary32.default (reverse Sample.sentences) Sample.vectors
      = Some (join SPACE <$> blocks2)
    ∧ length <$> blocks1 = length <$> blocks2
    ∧ ∀ k, block_start blocks1 k = block_start blocks2 k.
Proof.
  apply (cuts_depend_on_vectors_only Binary32.default Sample.sentences
           (reverse Sample.sentences) Sample.vectors); reflexivity.
Defined.

(** C3. The window of the comparison. Let the window hold at least one
    vector ([window_size >= 1]) and let [1 <= i <= N-1]. At the head of
    iteration [i] the open paragraph is the slice [s .. i-1] of the
    sentences, where [s] counts the sentences of the closed paragraphs. The
    vectors compared with vector [i] are the [min(window_size, i - s)]
    vectors just before index [i]: all of them lie strictly before [i],
    there is at least one, and [avg_similarity] is the mean of their cosine
    similarities with vector [i] (never the fallback [0]). This mean is
    the value the loop decides from: iteration [i] of the source's run
    breaks or not by [should_break] of it, and the state at the head of
    iteration [i + 1] is the outcome of that decision. *)
Theorem window_average `{Num : Numeric} (cfg : config)
    (sentences : list str) (vectors : list vec) (i : nat) :
  0 < window_size cfg →
  length vectors = length sentences →
  (1 ≤ i < length sentences)%nat →
  ∃ (st : state (list str)) (v_i : vec) (s_i : str),
    state_at id cfg sentences vectors i = Some st
    ∧ vectors !! i = Some v_i
    ∧ sentences !! i = Some s_i
    ∧ let s := length (concat (paragraphs st)) in
      let window := spec_window (window_size cfg) vectors s i in
      let avg := spec_avg_similarity (window_size cfg) vectors s i v_i in
      let st_run := render (join SPACE) st in
      let cut := should_break cfg avg (current_para st_run) in
      (s < i)%nat
      ∧ current_para st = slice s i sentences
      ∧ tail_slice (window_size cfg) (prev_vectors st) = window
      ∧ length window = Nat.min (Z.to_nat (window_size cfg)) (i - s)
      ∧ window ≠ []
      ∧ (∀ j v, window !! j = Some v →
           (i - length window + j < i)%nat
           ∧ vectors !! (i - length window + j)%nat = Some v)
      ∧ avg_similarity_at (join SPACE) cfg sentences vectors i = Some avg
      ∧ state_at (join SPACE) cfg sentences vectors i = Some st_run
      ∧ tail_slice (window_size cfg) (prev_vectors st_run) = window
      ∧ loop_body (join SPACE) cfg sentences vectors i st_run
        = Some (next_state (join SPACE) cfg st_run s_i v_i cut)
      ∧ state_at (join SPACE) cfg sentences vectors (S i)
        = Some (next_state (join SPACE) cfg st_run s_i v_i cut).
Proof.
  intros Hw Hlen Hi.
  destruct (state_at_inv cfg sentences vectors Hlen i ltac:(lia))
    as (st & Hst & Hinv).
  pose proof (block_inv_index cfg sentences vectors Hlen i st ltac:(lia) Hinv)
    as Hidx.
  destruct Hinv as [Hc _ Hcne _ _ Hwin].
  destruct (lookup_lt_is_Some_2 vectors i) as [v_i Hv]; [lia|].
  destruct (lookup_lt_is_Some_2 sentences i) as [s_i Hs_i]; [lia|].
  exists st, v_i, s_i. split; [done|]. split; [done|]. split; [done|]. simpl.
  pose proof (spec_window_length (window_size cfg) vectors
                (length (concat (paragraphs st))) i ltac:(lia)) as Hwl.
  assert (length (concat (paragraphs st)) < i)%nat as Hs.
  { destruct (current_para st); [done|]. simpl in Hidx. lia. }
  assert (spec_window (window_size cfg) vectors
            (length (concat (paragraphs st))) i ≠ []) as Hwne.
  { intros Hnil. rewrite Hnil in Hwl. simpl in Hwl. lia. }
  assert (tail_slice (window_size cfg) (prev_vectors st)
          = spec_window (window_size cfg) vectors
              (length (concat (paragraphs st))) i) as Htail.
  { rewrite (Hwin Hw). apply tail_slice_short; [done|]. lia. }
  assert (state_at (join SPACE) cfg sentences vectors i
          = Some (render (join SPACE) st)) as Hrun.
  { by rewrite state_at_render, Hst. }
  assert (loop_body (join SPACE) cfg sentences vectors i (render (join SPACE) st)
          = Some (next_state (join SPACE) cfg (render (join SPACE) st) s_i v_i
                    (should_break cfg
                       (spec_avg_similarity (window_size cfg) vectors
                          (length (concat (paragraphs st))) i v_i)
                       (current_para st)))) as Hbody.
  { rewrite (loop_body_next (join SPACE) cfg sentences vectors i _ v_i s_i Hv Hs_i).
    simpl. rewrite Htail. do 3 f_equal. by apply avg_of_similarities. }
  split; [done|]. split.
  { unfold slice. by rewrite <- Hc, drop_app_length. }
  split; [done|]. split; [done|]. split; [done|]. split.
  { intros j v Hj. rewrite Hwl. eapply spec_window_lookup; [lia|done]. }
  split.
  { rewrite avg_similarity_at_render. unfold avg_similarity_at, norms.
    rewrite Hst. simpl. rewrite Hv. simpl. rewrite list_lookup_fmap, Hv. simpl.
    rewrite Htail. f_equal. by apply avg_of_similarities. }
  split; [done|]. split; [done|]. split; [done|].
  rewrite state_at_S by lia. rewrite Hrun. simpl. exact Hbody.
Qed.

Lemma window_average_witness :
  ∃ (st : state (list str)) (v_i : vec) (s_i : str),
    state_at id Binary32.default Sample.sentences Sample.vectors 2 = Some st
    ∧ Sample.vectors !! 2%nat = Some v_i
    ∧ Sample.sentences !! 2%nat = Some s_i
    ∧ let s := length (concat (paragraphs st)) in
      let window := spec_window 2 Sample.vectors s 2 in
      let avg := spec_avg_similarity 2 Sample.vectors s 2 v_i in
      let st_run := render (join SPACE) st in
      let cut := should_break Binary32.default avg (current_para st_run) in
      (s < 2)%nat
      ∧ current_para st = slice s 2 Sample.sentences
      ∧ tail_slice 2 (prev_vectors st) = window
      ∧ length window = Nat.min (Z.to_nat 2) (2 - s)
      ∧ window ≠ []
      ∧ (∀ j v, window !! j = Some v →
           (2 - length window + j < 2)%nat
           ∧ Sample.vectors !! (2 - length window + j)%nat = Some v)
      ∧ avg_similarity_at (join SPACE) Binary32.default Sample.sentences
          Sample.vectors 2
        = Some avg
      ∧ state_at (join SPACE) Binary32.default Sample.sentences Sample.vectors 2
        = Some st_run
      ∧ tail_slice 2 (prev_vectors st_run) = window
      ∧ loop_body (join SPACE) Binary32.default Sample.sentences Sample.vectors
          2 st_run
        = Some (next_state (join SPACE) Binary32.default st_run s_i v_i cut)
      ∧ state_at (join SPACE) Binary32.default Sample.sentences Sample.vectors 3
        = Some (next_state (join SPACE) Binary32.default st_run s_i v_i cut).
Proof.
  apply (window_average Binary32.default Sample.sentences Sample.vectors 2).
  - reflexivity.
  - reflexivity.
  - simpl. lia.
Defined.



(** C6. Determinism and purity. Take two heaps that hold the same sentences
    and the same vectors, at any addresses and among any other objects.
    The two runs return the same string, which is the join of the
    paragraphs computed on the values alone; and each run leaves every
    object of its initial heap as it was, the sentence list and the array
    of vectors among them. *)
Theorem deterministic_and_pure `{Num : Numeric} (cfg : config)
    (sentences : list str) (vectors : list vec)
    (h1 h2 : gmap Store.loc Store.obj)
    (sentences1 vectors1 sentences2 vectors2 : Store.loc) :
  length vectors = length sentences →
  h1 !! sentences1 = Some (Store.Strs sentences) →
  h1 !! vectors1 = Some (Store.Vecs vectors) →
  h2 !! sentences2 = Some (Store.Strs sentences) →
  h2 !! vectors2 = Some (Store.Vecs vectors) →
  ∃ (out : str) (h1' h2' : gmap Store.loc Store.obj),
    Store.run cfg sentences1 vectors1 h1 = Some (out, h1')
    ∧ Store.run cfg sentences2 vectors2 h2 = Some (out, h2')
    ∧ join BLANK <$> segment cfg sentences vectors = Some out
    ∧ (∀ l, l ∈ dom h1 → h1' !! l = h1 !! l)
    ∧ (∀ l, l ∈ dom h2 → h2' !! l = h2 !! l)
    ∧ h1' !! sentences1 = Some (Store.Strs sentences)
    ∧ h1' !! vectors1 = Some (Store.Vecs vectors)
    ∧ h2' !! sentences2 = Some (Store.Strs sentences)
    ∧ h2' !! vectors2 = Some (Store.Vecs vectors).
Proof.
  intros Hlen Hs1 Hv1 Hs2 Hv2.
  destruct (segment_blocks_spec cfg sentences vectors Hlen)
    as (blocks & Hrun & _).
  assert (segment cfg sentences vectors = Some (join SPACE <$> blocks)) as Hseg.
  { by rewrite segment_render, Hrun. }
  destruct (run_refines cfg sentences vectors sentences1 vectors1 h1 Hs1 Hv1
              _ Hseg) as (h1' & Hrun1 & Hold1).
  destruct (run_refines cfg sentences vectors sentences2 vectors2 h2 Hs2 Hv2
              _ Hseg) as (h2' & Hrun2 & Hold2).
  exists (join BLANK (join SPACE <$> blocks)), h1', h2'.
  split; [done|]. split; [done|]. split; [by rewrite Hseg|].
  split; [done|]. split; [done|].
  rewrite !Hold1, !Hold2 by (apply elem_of_dom; eauto). done.
Qed.

Lemma deterministic_and_pure_witness :
  ∃ (out : str) (h1' h2' : gmap Store.loc Store.obj),
    Store.run Binary32.default 1 2 SampleHeap.first = Some (out, h1')
    ∧ Store.run Binary32.default 7 3 SampleHeap.second = Some (out, h2')
    ∧ join BLANK <$> segment Binary32.default Sample.sentences Sample.vectors
      = Some out
    ∧ (∀ l, l ∈ dom SampleHeap.first → h1' !! l = SampleHeap.first !! l)
    ∧ (∀ l, l ∈ dom SampleHeap.second → h2' !! l = SampleHeap.second !! l)
    ∧ h1' !! 1%positive = Some (Store.Strs Sample.sentences)
    ∧ h1' !! 2%positive = Some (Store.Vecs Sample.vectors)
    ∧ h2' !! 7%positive = Some (Store.Strs Sample.sentences)
    ∧ h2' !! 3%positive = Some (Store.Vecs Sample.vectors).
Proof.
  apply (deterministic_and_pure Binary32.default Sample.sentences Sample.vectors
           SampleHeap.first SampleHeap.second 1 2 7 3); reflexivity.
Defined.

(** C5, as the code has it. Nothing in the loop looks at the norms, and a
    division by zero does not raise in NumPy. Take the source's run at the
    head of iteration [i]. When vector [i] or a vector of the window is a
    row of zeros, the similarity of that pair is NaN, not [0]: the mean of
    the window's similarities is then NaN, the test
    [avg_similarity < threshold] is false, and the iteration cuts exactly
    when the open paragraph is full, so that sentence [i] joins the open
    paragraph unless it holds [max_sentences] sentences already. The run
    still returns. *)
Theorem zero_norm_similarity_is_nan (cfg : config (H:=Binary32.numeric))
    (sentences : list str) (vectors : list (list Binary32.f32)) (i : nat)
    (st : state str) (v_i : list Binary32.f32) :
  length vectors = length sentences →
  (1 ≤ i)%nat →
  state_at (join SPACE) cfg sentences vectors i = Some st →
  vectors !! i = Some v_i →
  (ZeroNorm.zero_row v_i = true
   ∧ tail_slice (window_size cfg) (prev_vectors st) ≠ [])
  ∨ Exists (λ u, ZeroNorm.zero_row u = true)
      (tail_slice (window_size cfg) (prev_vectors st)) →
  let window := tail_slice (window_size cfg) (prev_vectors st) in
  let avg_similarity := avg_of (similarities_with (Binary32.norm v_i) v_i window) in
  let full := max_sentences cfg <=? Z.of_nat (length (current_para st)) in
  (∀ u v, ZeroNorm.zero_row u = true ∨ ZeroNorm.zero_row v = true →
          cosine_similarity u v = Binary32.nan)
  ∧ Binary32.nan ∈ similarities_with (Binary32.norm v_i) v_i window
  ∧ avg_similarity = Binary32.nan
  ∧ should_break cfg avg_similarity (current_para st) = full
  ∧ (∃ s_i,
       sentences !! i = Some s_i
       ∧ loop_body (join SPACE) cfg sentences vectors i st
         = Some (next_state (join SPACE) cfg st s_i v_i full)
       ∧ state_at (join SPACE) cfg sentences vectors (S i)
         = Some (next_state (join SPACE) cfg st s_i v_i full))
  ∧ is_Some (segment cfg sentences vectors).
Proof.
  intros Hlen Hi Hst Hv Hzero. cbv zeta.
  assert (Binary32.nan
          ∈ similarities_with (Binary32.norm v_i) v_i
              (tail_slice (window_size cfg) (prev_vectors st))) as Hin.
  { unfold similarities_with. apply list_elem_of_fmap.
    destruct Hzero as [[Hz Hw]|Hex].
    - destruct (tail_slice (window_size cfg) (prev_vectors st)) as [|u window];
        [done|].
      exists u. split.
      + symmetry. apply (cosine_zero_row u v_i). by right.
      + apply list_elem_of_here.
    - apply Exists_exists in Hex as (u & Hu & Hz). exists u. split; [|done].
      symmetry. apply (cosine_zero_row u v_i). by left. }
  assert (avg_of (similarities_with (Binary32.norm v_i) v_i
                    (tail_slice (window_size cfg) (prev_vectors st)))
          = Binary32.nan) as Havg.
  { unfold avg_of. revert Hin.
    generalize (similarities_with (Num:=Binary32.numeric)
                  (Binary32.norm v_i) v_i
                  (tail_slice (window_size cfg) (prev_vectors st))).
    intros [|x sims] Hin; [by apply elem_of_nil in Hin|].
    by apply mean_has_nan. }
  split.
  { intros u v Hu. by apply cosine_zero_row. }
  split; [done|]. split; [done|]. split.
  { rewrite Havg. done. }
  split.
  - destruct (lookup_lt_is_Some_2 sentences i) as [s_i Hs].
    { rewrite <- Hlen. by eapply lookup_lt_Some. }
    exists s_i. split; [done|].
    assert (loop_body (join SPACE) cfg sentences vectors i st
            = Some (next_state (join SPACE) cfg st s_i v_i
                      (max_sentences cfg <=? Z.of_nat (length (current_para st)))))
      as Hbody.
    { rewrite (loop_body_next (Num:=Binary32.numeric) (join SPACE) cfg
                 sentences vectors i st v_i s_i Hv Hs).
      change (@np_norm Binary32.numeric v_i) with (Binary32.norm v_i).
      rewrite Havg. done. }
    split; [done|]. rewrite state_at_S by done. rewrite Hst. exact Hbody.
  - destruct (segment_blocks_spec cfg sentences vectors Hlen)
      as (blocks & Hrun & _).
    rewrite segment_render, Hrun. by eexists.
Qed.

Lemma zero_norm_similarity_is_nan_witness :
  let st := @Build_state Binary32.numeric str [] [py "A."] [Sample.vZero] in
  let window := tail_slice (window_size Binary32.default) (prev_vectors st) in
  let avg_similarity :=
    avg_of (similarities_with (Binary32.norm Sample.vD) Sample.vD window) in
  let full :=
    max_sentences Binary32.default <=? Z.of_nat (length (current_para st)) in
  (∀ u v, ZeroNorm.zero_row u = true ∨ ZeroNorm.zero_row v = true →
          cosine_similarity u v = Binary32.nan)
  ∧ Binary32.nan ∈ similarities_with (Binary32.norm Sample.vD) Sample.vD window
  ∧ avg_similarity = Binary32.nan
  ∧ should_break Binary32.default avg_similarity (current_para st) = full
  ∧ (∃ s_i,
       [py "A."; py "B."] !! 1%nat = Some s_i
       ∧ loop_body (join SPACE) Binary32.default [py "A."; py "B."]
           [Sample.vZero; Sample.vD] 1 st
         = Some (next_state (join SPACE) Binary32.default st s_i Sample.vD full)
       ∧ state_at (join SPACE) Binary32.default [py "A."; py "B."]
           [Sample.vZero; Sample.vD] 2
         = Some (next_state (join SPACE) Binary32.default st s_i Sample.vD full))
  ∧ is_Some (segment Binary32.default [py "A."; py "B."]
               [Sample.vZero; Sample.vD]).
Proof.
  apply (zero_norm_similarity_is_nan Binary32.default [py "A."; py "B."]
           [Sample.vZero; Sample.vD] 1
           (@Build_state Binary32.numeric str [] [py "A."] [Sample.vZero])
           Sample.vD).
  - reflexivity.
  - lia.
  - reflexivity.
  - reflexivity.
  - right. apply Exists_cons_hd. reflexivity.
Defined.

(** C5 does not hold as stated. The first of two sentences has a vector of
    zeros: the similarity the code computes is NaN, not [0], and the two
    sentences stay in one paragraph, where a similarity of [0] would have
    cut between them. *)
Lemma zero_norm_counterexample :
  Binary32.norm Sample.vZero = Binary32.zero
  ∧ cosine_similarity Sample.vZero Sample.vD = Binary32.nan
  ∧ cosine_similarity Sample.vZero Sample.vD ≠ Binary32.zero
  ∧ cosine_similarity (Num:=ZeroNorm.with_fallback) Sample.vZero Sample.vD
    = Binary32.zero
  ∧ segment Binary32.default [py "A."; py "B."] [Sample.vZero; Sample.vD]
    = Some [py "A. B."]
  ∧ segment ZeroNorm.default_with_fallback [py "A."; py "B."]
      [Sample.vZero; Sample.vD]
    = Some [py "A."; py "B."].
Proof. by vm_compute. Qed.

(** C4. The example of the specification. Take the five sentences ["A."] to
    ["E."] with any vectors for which the similarities the loop computes
    are about 0.99 between [A], [B] and [C] and between [D] and [E], and
    about 0.1 between [D] and each of [B] and [C]. With the defaults
    (threshold 0.65, four sentences at most, a window of two) the result is
    the two paragraphs ["A. B. C."] and ["D. E."], and the text returned is
    these two with a blank line between. *)
Theorem five_sentence_example (vA vB vC vD vE : list Binary32.f32) :
  Similar.about_099 (cosine_similarity vA vB) = true →
  Similar.about_099 (cosine_similarity vA vC) = true →
  Similar.about_099 (cosine_similarity vB vC) = true →
  Similar.about_01 (cosine_similarity vB vD) = true →
  Similar.about_01 (cosine_similarity vC vD) = true →
  Similar.about_099 (cosine_similarity vD vE) = true →
  segment Binary32.default Sample.sentences [vA; vB; vC; vD; vE]
  = Some [py "A. B. C."; py "D. E."]
  ∧ join BLANK
      <$> segment Binary32.default Sample.sentences [vA; vB; vC; vD; vE]
    = Some (py "A. B. C." ++ BLANK ++ py "D. E.").
Proof.
  intros Hab Hac Hbc Hbd Hcd Hde.
  assert (segment Binary32.default Sample.sentences [vA; vB; vC; vD; vE]
          = Some [py "A. B. C."; py "D. E."]) as Hseg; [|by rewrite Hseg].
  unfold segment, run, Sample.sentences, state_at, init_state.
  cbn [length Nat.sub seq lookup list_lookup mbind option_bind].
  rewrite for_each_cons.
  rewrite (loop_body_decided (Num:=Binary32.numeric) _ _ _ _ 1 _ vB (py "B.") [vA] false);
    [|done|done|done|by apply keep_after_one; [|simpl; lia]].
  cbn [mbind option_bind]. rewrite for_each_cons.
  rewrite (loop_body_decided (Num:=Binary32.numeric) _ _ _ _ 2 _ vC (py "C.") [vA; vB] false);
    [|done|done|done|by apply keep_after_two; [| |simpl; lia]].
  cbn [mbind option_bind]. rewrite for_each_cons.
  rewrite (loop_body_decided (Num:=Binary32.numeric) _ _ _ _ 3 _ vD (py "D.") [vB; vC] true);
    [|done|done|done|by apply cut_after_two].
  cbn [mbind option_bind]. rewrite for_each_cons.
  rewrite (loop_body_decided (Num:=Binary32.numeric) _ _ _ _ 4 _ vE (py "E.") [vD] false);
    [|done|done|done|by apply keep_after_one; [|simpl; lia]].
  done.
Qed.

Lemma five_sentence_example_witness :
  segment Binary32.default Sample.sentences
    [Sample.vA; Sample.vB; Sample.vC; Sample.vD; Sample.vE]
  = Some [py "A. B. C."; py "D. E."]
  ∧ join BLANK
      <$> segment Binary32.default Sample.sentences
            [Sample.vA; Sample.vB; Sample.vC; Sample.vD; Sample.vE]
    = Some (py "A. B. C." ++ BLANK ++ py "D. E.").
Proof.
  apply (five_sentence_example Sample.vA Sample.vB Sample.vC Sample.vD Sample.vE);
    vm_compute; reflexivity.
Defined.

(** ** The embedding pass *)

Section EmbeddingFacts.
Context `{Num : Numeric}.
Variable embed : str → vec.

Lemma embed_batches_prefix (sentences : list str) (k : nat) :
  foldl (embed_batch embed sentences) {| embedded := []; progress := [] |}
    ((λ j, j * batch_size)%nat <$> seq 0 k)
  = {| embedded := embed <$> take (k * batch_size) sentences;
       progress := (λ j, (j * batch_size, length sentences)%nat) <$> seq 0 k |}.
Proof.
  induction k as [|k IH]; [done|].
  rewrite seq_S, fmap_app, foldl_app, IH. simpl.
  unfold embed_batch. simpl. f_equal.
  - rewrite <- fmap_app. f_equal. unfold slice.
    rewrite <- take_drop_commute. rewrite take_take_drop. f_equal.
    unfold batch_size. lia.
  - by rewrite fmap_app.
Qed.

Lemma batches_cover (n : nat) :
  (n ≤ (n + batch_size - 1) / batch_size * batch_size)%nat.
Proof.
  unfold batch_size.
  pose proof (Nat.div_mod_eq (n + 50 - 1) 50) as Hd.
  pose proof (Nat.mod_upper_bound (n + 50 - 1) 50 ltac:(lia)) as Hm. lia.
Qed.

Lemma embed_all_spec (sentences : list str) :
  embed_all embed sentences
  = {| embedded := embed <$> sentences;
       progress := (λ i, (i, length sentences))
                     <$> range_step (length sentences) batch_size |}.
Proof.
  unfold embed_all, range_step. rewrite embed_batches_prefix. f_equal.
  - by rewrite take_ge by apply batches_cover.
  - by rewrite <- list_fmap_compose.
Qed.
End EmbeddingFacts.

(** ** More on the loop *)

Section LoopCases.
Context `{Num : Numeric}.
Variable cfg : config.
Variables (sentences : list str) (vectors : list vec).
Hypothesis same_length : length vectors = length sentences.

(** An iteration, by its decision; the invariant goes with it. *)
Lemma loop_body_cases i st :
  (1 ≤ i < length sentences)%nat → block_inv cfg sentences vectors i st →
  ∃ v_i s_i,
    vectors !! i = Some v_i ∧ sentences !! i = Some s_i
    ∧ let cut :=
        should_break cfg
          (avg_of (similarities_with (np_norm v_i) v_i
                     (tail_slice (window_size cfg) (prev_vectors st))))
          (current_para st) in
      loop_body id cfg sentences vectors i st
      = Some (next_state id cfg st s_i v_i cut)
      ∧ block_inv cfg sentences vectors (S i) (next_state id cfg st s_i v_i cut).
Proof.
  intros Hi Hinv.
  destruct (block_inv_step cfg sentences vectors same_length i st Hi Hinv)
    as (st' & Hst' & Hinv').
  destruct (lookup_lt_is_Some_2 sentences i) as [s_i Hs]; [lia|].
  destruct (lookup_lt_is_Some_2 vectors i) as [v_i Hv]; [lia|].
  exists v_i, s_i. split; [done|]. split; [done|]. simpl.
  assert (loop_body id cfg sentences vectors i st
          = Some (next_state id cfg st s_i v_i
                    (should_break cfg
                       (avg_of (similarities_with (np_norm v_i) v_i
                                  (tail_slice (window_size cfg) (prev_vectors st))))
                       (current_para st)))) as Heq.
  { unfold loop_body, norms, next_state.
    rewrite Hv, list_lookup_fmap, Hv, Hs. simpl.
    by destruct (should_break _ _ _). }
  split; [done|]. rewrite Heq in Hst'. by injection Hst' as ->.
Qed.

(** An invariant that holds at the start and is kept by every iteration
    that keeps [block_inv] holds whenever the loop is at an iteration. *)
Lemma state_at_inv_with (I : nat → state (list str) → Prop) i :
  (1 ≤ i ≤ length sentences)%nat →
  (∀ s0 v0, sentences !! 0%nat = Some s0 → vectors !! 0%nat = Some v0 →
     I 1%nat {| paragraphs := []; current_para := [s0]; prev_vectors := [v0] |}) →
  (∀ j st v_j s_j, (1 ≤ j < length sentences)%nat →
     block_inv cfg sentences vectors j st → I j st →
     vectors !! j = Some v_j → sentences !! j = Some s_j →
     I (S j) (next_state id cfg st s_j v_j
                (should_break cfg
                   (avg_of (similarities_with (np_norm v_j) v_j
                              (tail_slice (window_size cfg) (prev_vectors st))))
                   (current_para st)))) →
  ∃ st, state_at id cfg sentences vectors i = Some st
        ∧ block_inv cfg sentences vectors i st ∧ I i st.
Proof.
  intros Hi Hinit Hstep.
  destruct (lookup_lt_is_Some_2 sentences 0) as [s0 Hs]; [lia|].
  destruct (lookup_lt_is_Some_2 vectors 0) as [v0 Hv]; [lia|].
  unfold state_at, init_state. rewrite Hs, Hv. simpl.
  destruct (for_each_invariant
              (λ j st, block_inv cfg sentences vectors j st ∧ I j st)
              (loop_body id cfg sentences vectors) (i - 1) 1
              {| paragraphs := []; current_para := [s0]; prev_vectors := [v0] |})
    as (st & Hst & Hinv & HI).
  - split; [by apply block_inv_init|by apply Hinit].
  - intros j st Hj [Hinv HI].
    destruct (loop_body_cases j st ltac:(lia) Hinv)
      as (v_j & s_j & Hvj & Hsj & Hbody & Hinv').
    eexists. split; [exact Hbody|]. split; [done|]. apply Hstep; [lia|done..].
  - exists st. split; [done|].
    by replace i with (1 + (i - 1))%nat by lia.
Qed.
End LoopCases.

(** ** Counting paragraphs *)

Lemma concat_length_bounds {A} (blocks : list (list A)) (m : nat) :
  Forall (λ b, (1 ≤ length b ≤ m)%nat) blocks →
  (length blocks ≤ length (concat blocks) ≤ m * length blocks)%nat.
Proof.
  induction 1 as [|b blocks Hb _ IH]; simpl; [lia|].
  rewrite length_app. lia.
Qed.

(** ** Gluing *)

Lemma glue_cons (s0 s1 : str) (rest : list str) (sep : str) (seps : list str) :
  glue (s0 :: s1 :: rest) (sep :: seps) = s0 ++ sep ++ glue (s1 :: rest) seps.
Proof. unfold glue. simpl. by rewrite <- !app_assoc. Qed.

Lemma glue_singleton (s : str) (seps : list str) : glue [s] seps = s.
Proof. unfold glue. destruct seps; simpl; by rewrite app_nil_r. Qed.

Lemma glue_app (b l : list str) (sb sl : list str) (sep : str) :
  b ≠ [] → l ≠ [] → length sb = (length b - 1)%nat →
  glue (b ++ l) (sb ++ sep :: sl) = glue b sb ++ sep ++ glue l sl.
Proof.
  revert sb. induction b as [|s0 b IH]; intros sb Hb Hl Hsb; [done|].
  destruct b as [|s1 b].
  - destruct sb; [|done]. destruct l as [|l0 l]; [done|].
    change ([s0] ++ l0 :: l) with (s0 :: l0 :: l).
    change ([] ++ sep :: sl) with (sep :: sl).
    by rewrite glue_cons, glue_singleton.
  - destruct sb as [|sep0 sb]; [done|].
    change ((s0 :: s1 :: b) ++ l) with (s0 :: s1 :: (b ++ l)).
    change ((sep0 :: sb) ++ sep :: sl) with (sep0 :: (sb ++ sep :: sl)).
    rewrite !glue_cons.
    change (s1 :: b ++ l) with ((s1 :: b) ++ l).
    rewrite IH; [|done|done|simpl in *; lia].
    by rewrite <- !app_assoc.
Qed.

Lemma join_glue (sep : str) (b : list str) :
  join sep b = glue b (replicate (length b - 1) sep).
Proof.
  induction b as [|s0 b IH]; [done|].
  destruct b as [|s1 b].
  - by rewrite glue_singleton.
  - change (join sep (s0 :: s1 :: b)) with (s0 ++ sep ++ join sep (s1 :: b)).
    rewrite IH.
    replace (length (s0 :: s1 :: b) - 1)%nat with (S (length (s1 :: b) - 1))
      by (simpl; lia).
    change (replicate (S ?n) ?x) with (x :: replicate n x).
    by rewrite glue_cons.
Qed.

(** The text of a partition: its blocks joined by [inner] and these by
    [outer], as the sentences glued by [inner] or [outer]. *)
Lemma join_blocks_glue (inner outer : str) (blocks : list (list str)) :
  Forall (λ b, b ≠ []) blocks →
  ∃ seps,
    length seps = (length (concat blocks) - 1)%nat
    ∧ Forall (λ sep, sep = inner ∨ sep = outer) seps
    ∧ join outer (join inner <$> blocks) = glue (concat blocks) seps.
Proof.
  induction 1 as [|b blocks Hb Hne IH].
  { by exists []. }
  destruct IH as (seps & Hlen & Hseps & Hjoin).
  destruct blocks as [|b' blocks].
  - exists (replicate (length b - 1) inner). simpl. rewrite app_nil_r.
    split; [by rewrite length_replicate|]. split.
    + apply Forall_replicate. by left.
    + apply join_glue.
  - assert (concat (b' :: blocks) ≠ []) as Hrest.
    { apply Forall_cons in Hne as [Hb' _]. simpl. by destruct b'. }
    exists (replicate (length b - 1) inner ++ outer :: seps). split.
    { simpl in *. rewrite !length_app, length_replicate. simpl.
      destruct b; [done|]. destruct b'; [by apply Forall_cons in Hne as [? _]|].
      simpl in *. rewrite !length_app in *. simpl in *. lia. }
    split.
    { apply Forall_app. split; [apply Forall_replicate; by left|].
      apply Forall_cons. split; [by right|done]. }
    change (join outer (join inner <$> b :: b' :: blocks))
      with (join inner b ++ outer ++ join outer (join inner <$> b' :: blocks)).
    rewrite Hjoin, join_glue.
    change (concat (b :: b' :: blocks)) with (b ++ concat (b' :: blocks)).
    by rewrite glue_app by (done || by rewrite length_replicate).
Qed.

(** ** Vectors of zeros, and a window of size zero *)

Lemma avg_nan_zero_current (v_i : list Binary32.f32)
    (window : list (list Binary32.f32)) :
  ZeroNorm.zero_row v_i = true → window ≠ [] →
  avg_of (similarities_with (Binary32.norm v_i) v_i window) = Binary32.nan.
Proof.
  intros Hv Hw. destruct window as [|u window]; [done|].
  assert (Binary32.nan
            ∈ similarities_with (Num:=Binary32.numeric) (Binary32.norm v_i) v_i
                (u :: window)) as Hin.
  { unfold similarities_with. apply list_elem_of_fmap. exists u. split.
    - symmetry. apply (cosine_zero_row u v_i). by right.
    - apply list_elem_of_here. }
  unfold avg_of. revert Hin.
  generalize (similarities_with (Num:=Binary32.numeric) (Binary32.norm v_i) v_i
                (u :: window)).
  intros [|x sims] Hin; [by apply elem_of_nil in Hin|].
  by apply mean_has_nan.
Qed.

Lemma tail_slice_zero {A} (l : list A) : tail_slice 0 l = l.
Proof. done. Qed.

Lemma block_inv_window_nonempty `{Num : Numeric} (cfg : config)
    (sentences : list str) (vectors : list vec) (i : nat) (st : state (list str)) :
  length vectors = length sentences → (1 ≤ i ≤ length sentences)%nat →
  0 < window_size cfg → block_inv cfg sentences vectors i st →
  tail_slice (window_size cfg) (prev_vectors st) ≠ [].
Proof.
  intros Hlen Hi Hw Hinv.
  pose proof (block_inv_index cfg sentences vectors Hlen i st ltac:(lia) Hinv)
    as Hidx.
  destruct Hinv as [_ _ Hcne _ _ Hwin].
  pose proof (spec_window_length (window_size cfg) vectors
                (length (concat (paragraphs st))) i ltac:(lia)) as Hwl.
  rewrite <- (Hwin Hw) in Hwl.
  rewrite tail_slice_short; [|done|lia].
  intros Hnil. rewrite Hnil in Hwl. simpl in Hwl.
  destruct (current_para st); [done|]. simpl in Hidx. lia.
Qed.

(** ** More on the scan of [re.sub] *)

Section MarkerMore.
Variable is_digit : N → bool.

Local Abbreviation is_marker := (Marker.is_marker is_digit).
Local Abbreviation matches_at := (Marker.matches_at is_digit).
Local Abbreviation re_sub := (Marker.re_sub is_digit).

Lemma re_sub_sublist s : s `sublist_of` re_sub s.
Proof.
  induction s as [|c rest Hm IH|m after Hmk IH] using (re_sub_ind is_digit).
  - done.
  - rewrite (re_sub_copy _ _ _ Hm). by apply sublist_skip.
  - rewrite (re_sub_marker _ _ _ Hmk).
    apply sublist_inserts_l, sublist_app; [done|].
    by apply sublist_inserts_l.
Qed.

Lemma re_sub_length s : (length s ≤ length (re_sub s))%nat.
Proof. apply sublist_length, re_sub_sublist. Qed.

Lemma re_sub_filter s :
  filter (λ c, c ≠ NL) (re_sub s) = filter (λ c, c ≠ NL) s.
Proof.
  induction s as [|c rest Hm IH|m after Hmk IH] using (re_sub_ind is_digit).
  - done.
  - rewrite (re_sub_copy _ _ _ Hm). by rewrite !filter_cons, IH.
  - rewrite (re_sub_marker _ _ _ Hmk). rewrite !filter_app, IH. done.
Qed.

Lemma matches_at_length s : matches_at s = true → (7 ≤ length s)%nat.
Proof.
  intros Hm. destruct (matches_at_split is_digit s Hm) as (m & after & -> & Hmk).
  rewrite length_app, (is_marker_length is_digit m Hmk). lia.
Qed.

Lemma re_sub_fixed s :
  re_sub s = s ↔ ∀ p, matches_at (drop p s) = false.
Proof.
  induction s as [|c rest Hm IH|m after Hmk IH] using (re_sub_ind is_digit).
  - split; [|done]. intros _ p. by rewrite drop_nil.
  - rewrite (re_sub_copy _ _ _ Hm). split.
    + intros Heq p. injection Heq as Heq. destruct p as [|p]; [done|].
      simpl. by apply IH.
    + intros Hno. f_equal. apply IH. intros p. apply (Hno (S p)).
  - split.
    + intros Heq. apply (f_equal length) in Heq.
      rewrite (re_sub_marker _ _ _ Hmk) in Heq.
      pose proof (re_sub_length after) as Hl.
      rewrite !length_app in Heq. simpl in Heq. lia.
    + intros Hno. specialize (Hno 0%nat). rewrite drop_0 in Hno.
      unfold Marker.matches_at in Hno.
      rewrite take_app_length' in Hno
        by (symmetry; by apply (is_marker_length is_digit)).
      congruence.
Qed.

Hypothesis line_feed_no_digit : is_digit NL = false.
Hypothesis bracket_no_digit : is_digit Marker.LBRACKET = false.

Lemma marker_count_marker m after :
  is_marker m = true →
  marker_count is_digit (m ++ after) = S (marker_count is_digit after).
Proof.
  intros Hmk.
  assert (matches_at (m ++ after) = true) as Hm0.
  { unfold Marker.matches_at.
    by rewrite take_app_length'
      by (symmetry; by apply (is_marker_length is_digit)). }
  destruct (is_marker_chars is_digit line_feed_no_digit bracket_no_digit m Hmk)
    as (c1&c2&c3&c4&c5&c6& -> & Hch).
  repeat (apply Forall_cons in Hch as [[_ ?] Hch]).
  assert (∀ c l, c ≠ Marker.LBRACKET → matches_at (c :: l) = false) as Hno.
  { intros c l Hc. destruct (matches_at (c :: l)) eqn:Hm; [|done].
    apply (matches_at_head is_digit line_feed_no_digit bracket_no_digit) in Hm
      as [r Hr]. by simplify_eq. }
  change (marker_count is_digit ([Marker.LBRACKET; c1; c2; c3; c4; c5; c6] ++ after))
    with ((if matches_at ([Marker.LBRACKET; c1; c2; c3; c4; c5; c6] ++ after)
           then 1 else 0)
          + ((if matches_at (c1 :: c2 :: c3 :: c4 :: c5 :: c6 :: after)
              then 1 else 0)
          + ((if matches_at (c2 :: c3 :: c4 :: c5 :: c6 :: after) then 1 else 0)
          + ((if matches_at (c3 :: c4 :: c5 :: c6 :: after) then 1 else 0)
          + ((if matches_at (c4 :: c5 :: c6 :: after) then 1 else 0)
          + ((if matches_at (c5 :: c6 :: after) then 1 else 0)
          + ((if matches_at (c6 :: after) then 1 else 0)
          + marker_count is_digit after)))))))%nat.
  rewrite Hm0, !Hno by done. done.
Qed.

Lemma marker_count_copy c rest :
  matches_at (c :: rest) = false →
  marker_count is_digit (c :: rest) = marker_count is_digit rest.
Proof.
  intros Hm.
  change (marker_count is_digit (c :: rest))
    with ((if matches_at (c :: rest) then 1 else 0)
          + marker_count is_digit rest)%nat.
  by rewrite Hm.
Qed.

Lemma matches_at_not_bracket c l :
  c ≠ Marker.LBRACKET → matches_at (c :: l) = false.
Proof.
  intros Hc. destruct (matches_at (c :: l)) eqn:Hm; [|done].
  apply (matches_at_head is_digit line_feed_no_digit bracket_no_digit) in Hm
    as [r Hr]. by simplify_eq.
Qed.
End MarkerMore.

(** ** Decimal numerals and stamps *)

Lemma forall_range (P : Z → bool) (n : nat) :
  forallb P (Z.of_nat <$> seq 0 n) = true →
  ∀ t, 0 <= t < Z.of_nat n → P t = true.
Proof.
  intros Hall t Ht. rewrite forallb_forall in Hall. apply Hall.
  apply list_elem_of_In, list_elem_of_fmap. exists (Z.to_nat t).
  split; [lia|]. apply elem_of_seq. lia.
Qed.

Lemma short_numeral u :
  (length (Timestamp.uint_chars u) ≤ 2)%nat → (Pos.of_uint u <= 99)%N.
Proof.
  intros H.
  destruct u as [|u|u|u|u|u|u|u|u|u|u]; [done|..];
  (destruct u as [|u|u|u|u|u|u|u|u|u|u]; [done|..];
   (destruct u as [|u|u|u|u|u|u|u|u|u|u]; [done|..]; simpl in H; lia)).
Qed.

(** From one hundred on a numeral has three digits or more. *)
Lemma decimal_long n : 100 <= n → (3 ≤ length (Timestamp.decimal n))%nat.
Proof.
  intros Hn. destruct n as [|p|p]; [lia| |lia]. simpl.
  destruct (decide (length (Timestamp.uint_chars (Pos.to_uint p)) ≤ 2)%nat)
    as [Hs|]; [|lia].
  apply short_numeral in Hs. rewrite DecimalPos.Unsigned.of_to in Hs. lia.
Qed.

Lemma format_02d_long n : 100 <= n → (3 ≤ length (Timestamp.format_02d n))%nat.
Proof.
  intros Hn. pose proof (decimal_long n Hn) as Hl. unfold Timestamp.format_02d.
  destruct (length (Timestamp.decimal n) <? 2)%nat; simpl; lia.
Qed.

Lemma numeral_nonempty p : Timestamp.uint_chars (Pos.to_uint p) ≠ [].
Proof.
  intros Hnil.
  assert (Pos.of_uint (Pos.to_uint p) = 0%N) as H0.
  { destruct (Pos.to_uint p); try done. }
  by rewrite DecimalPos.Unsigned.of_to in H0.
Qed.

Lemma format_02d_negative n :
  n < 0 → ∃ rest, Timestamp.format_02d n = 45%N :: rest.
Proof.
  intros Hn. destruct n as [|p|p]; [lia|lia|].
  unfold Timestamp.format_02d. simpl.
  pose proof (numeral_nonempty p) as Hne.
  destruct (Timestamp.uint_chars (Pos.to_uint p)) as [|c l]; [done|].
  by eexists.
Qed.

(** A number is written with two characters at least. *)
Lemma format_02d_wide n : (2 ≤ length (Timestamp.format_02d n))%nat.
Proof.
  unfold Timestamp.format_02d.
  destruct (length (Timestamp.decimal n) <? 2)%nat eqn:Hl.
  - destruct n as [|p|p]; simpl; [lia| |lia].
    pose proof (numeral_nonempty p) as Hne.
    destruct (Timestamp.uint_chars (Pos.to_uint p)); [done|simpl; lia].
  - apply Nat.ltb_ge in Hl. lia.
Qed.

(** Within one hundred hours the stamp is two digits, a colon, two
    digits, in brackets. *)
Lemma format_minutes_in_range t :
  0 <= t < 6000 →
  Timestamp.format_minutes t
  = [Marker.LBRACKET] ++ Timestamp.two_digits (t / 60) ++ [Marker.COLON]
      ++ Timestamp.two_digits (t mod 60) ++ [Marker.RBRACKET]
  ∧ Marker.is_marker Marker.ascii_digit (Timestamp.format_minutes t) = true.
Proof.
  intros Ht.
  assert ((bool_decide
             (Timestamp.format_minutes t
              = [Marker.LBRACKET] ++ Timestamp.two_digits (t / 60)
                  ++ [Marker.COLON] ++ Timestamp.two_digits (t mod 60)
                  ++ [Marker.RBRACKET])
           && Marker.is_marker Marker.ascii_digit (Timestamp.format_minutes t))
          = true) as H.
  { revert t Ht. apply (forall_range _ 6000). vm_compute. reflexivity. }
  apply andb_prop in H as [H1 H2]. by apply bool_decide_eq_true in H1.
Qed.

(** Outside it the stamp is no marker. *)
Lemma format_minutes_out_of_range t :
  ¬ (0 <= t < 6000) →
  Marker.is_marker Marker.ascii_digit (Timestamp.format_minutes t) = false.
Proof.
  intros Ht. unfold Timestamp.format_minutes.
  destruct (decide (t < 0)) as [Hneg|Hpos].
  - destruct (format_02d_negative (t / 60)) as [rest ->].
    { apply Z.div_lt_upper_bound; lia. }
    simpl.
    destruct (rest ++ Marker.COLON
                :: Timestamp.format_02d (t mod 60) ++ [Marker.RBRACKET])
      as [|? [|? [|? [|? [|? [|? ?]]]]]]; done.
  - destruct (Marker.is_marker Marker.ascii_digit _) eqn:Hm; [|done].
    apply is_marker_length in Hm.
    assert (6000 <= t) as Hge by lia.
    assert (100 <= t / 60) as Hbig.
    { apply Z.div_le_lower_bound; [lia|]. clear -Hge. lia. }
    pose proof (format_02d_long (t / 60) Hbig) as Hh.
    pose proof (format_02d_wide (t mod 60)) as Hmin.
    simpl in Hm. rewrite !length_app in Hm. simpl in Hm.
    rewrite !length_app in Hm. simpl in Hm. lia.
Qed.

Module StampRange.
Import QArith_base.

(** Whole minutes below six thousand are seconds below 360000. *)
Lemma whole_minutes_range (seconds : Q) :
  (0 <= Timestamp.whole_minutes seconds < 6000)%Z
  ↔ Qle (inject_Z 0) seconds ∧ Qlt seconds (inject_Z 360000).
Proof.
  unfold Timestamp.whole_minutes.
  set (x := Qdiv seconds (inject_Z 60)).
  assert (Qeq seconds (Qmult (inject_Z 60) x)) as Hx.
  { unfold x. rewrite Qmult_div_r; [reflexivity|done]. }
  pose proof (Qround.Qfloor_le x) as Hle.
  pose proof (Qround.Qlt_floor x) as Hlt.
  rewrite inject_Z_plus in Hlt.
  change (inject_Z 0) with (Qmake 0 1).
  change (inject_Z 360000) with (Qmake 360000 1).
  change (inject_Z 60) with (Qmake 60 1) in Hx.
  change (inject_Z 1) with (Qmake 1 1) in Hlt.
  split.
  - intros [H0 H1].
    rewrite Zle_Qle in H0. change (inject_Z 0) with (Qmake 0 1) in H0.
    assert (Qround.Qfloor x + 1 <= 6000)%Z as H2 by lia.
    rewrite Zle_Qle, inject_Z_plus in H2.
    change (inject_Z 6000) with (Qmake 6000 1) in H2.
    change (inject_Z 1) with (Qmake 1 1) in H2.
    rewrite Hx. split; Lqa.lra.
  - intros [H0 H1]. rewrite Hx in H0, H1.
    split.
    + assert (Qle (Qmake 0 1) x) as Hx0 by Lqa.lra.
      apply Qround.Qfloor_resp_le in Hx0. exact Hx0.
    + assert (Qlt (inject_Z (Qround.Qfloor x)) (inject_Z 6000)) as H2.
      { change (inject_Z 6000) with (Qmake 6000 1). Lqa.lra. }
      by rewrite <- Zlt_Qlt in H2.
Qed.
End StampRange.

Lemma two_digits_inj a b :
  0 <= a < 100 → 0 <= b < 100 →
  Timestamp.two_digits a = Timestamp.two_digits b → a = b.
Proof.
  intros Ha Hb Heq. unfold Timestamp.two_digits in Heq.
  injection Heq as H1 H2.
  assert (a / 10 = b / 10) as Hq.
  { pose proof (Z.div_pos a 10). pose proof (Z.div_pos b 10). lia. }
  assert (a mod 10 = b mod 10) as Hr.
  { pose proof (Z.mod_pos_bound a 10). pose proof (Z.mod_pos_bound b 10). lia. }
  rewrite (Z.div_mod a 10), (Z.div_mod b 10) by lia. lia.
Qed.

Lemma format_minutes_inj t t' :
  0 <= t < 6000 → 0 <= t' < 6000 →
  Timestamp.format_minutes t = Timestamp.format_minutes t' → t = t'.
Proof.
  intros Ht Ht' Heq.
  rewrite (proj1 (format_minutes_in_range t Ht)) in Heq.
  rewrite (proj1 (format_minutes_in_range t' Ht')) in Heq.
  assert (0 <= t / 60 < 100) as Hh.
  { split; [apply Z.div_pos; lia|apply Z.div_lt_upper_bound; lia]. }
  assert (0 <= t' / 60 < 100) as Hh'.
  { split; [apply Z.div_pos; lia|apply Z.div_lt_upper_bound; lia]. }
  pose proof (Z.mod_pos_bound t 60) as Hm.
  pose proof (Z.mod_pos_bound t' 60) as Hm'.
  unfold Timestamp.two_digits in Heq. simpl in Heq.
  injection Heq as H1 H2 H3 H4.
  assert (t / 60 = t' / 60) as Hq.
  { apply two_digits_inj; [done|done|]. unfold Timestamp.two_digits.
    by rewrite H1, H2. }
  assert (t mod 60 = t' mod 60) as Hr.
  { apply two_digits_inj; [lia|lia|]. unfold Timestamp.two_digits.
    by rewrite H3, H4. }
  rewrite (Z.div_mod t 60), (Z.div_mod t' 60) by lia. lia.
Qed.

(** A stamp holds ASCII digits, which every [\d] matches. *)
Lemma is_marker_mono (is_digit : N → bool) m :
  (∀ c, Marker.ascii_digit c = true → is_digit c = true) →
  Marker.is_marker Marker.ascii_digit m = true →
  Marker.is_marker is_digit m = true.
Proof.
  intros Hd Hm. do 8 (destruct m as [|? m]; try done).
  simpl in *. repeat (apply andb_prop in Hm as [Hm ?]).
  repeat (apply andb_true_intro; split); auto.
Qed.

Lemma re_sub_no_bracket (is_digit : N → bool) before rest :
  is_digit NL = false →
  is_digit Marker.LBRACKET = false →
  Forall (λ c, c ≠ Marker.LBRACKET) before →
  Marker.re_sub is_digit (before ++ rest)
  = before ++ Marker.re_sub is_digit rest.
Proof.
  intros Hnl Hlb. induction 1 as [|c before Hc _ IH]; [done|].
  change ((c :: before) ++ rest) with (c :: (before ++ rest)).
  rewrite re_sub_copy by by apply (matches_at_not_bracket is_digit Hnl Hlb).
  by rewrite IH.
Qed.

(** * Further properties of the code *)

(** X1. The embedding pass, which takes the sentences in batches of 50,
    builds exactly one vector per sentence, in the order of the sentences:
    no sentence is skipped or embedded twice at a batch boundary. *)
Theorem embedding_pass_one_vector_per_sentence `{Num : Numeric}
    (embed : str → vec) (sentences : list str) :
  embedded (embed_all embed sentences) = embed <$> sentences
  ∧ length (embedded (embed_all embed sentences)) = length sentences
  ∧ ∀ i s, sentences !! i = Some s →
      embedded (embed_all embed sentences) !! i = Some (embed s).
Proof.
  rewrite embed_all_spec. simpl. split; [done|]. split.
  - by rewrite length_fmap.
  - intros i s Hs. by rewrite list_lookup_fmap, Hs.
Qed.

(** X2. Progress reports. For [N] sentences the callback is called once per
    batch, [ceil(N / 50)] times; the [k]-th call (from 0) reports the
    fraction [50 k / N], which is below 1, so the reports start at 0,
    increase strictly and never reach 1. *)
Theorem progress_reports `{Num : Numeric} (embed : str → vec)
    (sentences : list str) :
  length (progress (embed_all embed sentences))
  = ((length sentences + 49) / 50)%nat
  ∧ ∀ k p, progress (embed_all embed sentences) !! k = Some p →
      p = ((50 * k)%nat, length sentences)
      ∧ (50 * k < length sentences)%nat.
Proof.
  rewrite embed_all_spec. simpl. unfold range_step, batch_size.
  replace (length sentences + 50 - 1)%nat with (length sentences + 49)%nat by lia.
  split.
  - by rewrite !length_fmap, length_seq.
  - intros k p Hp. rewrite !list_lookup_fmap in Hp.
    destruct (seq 0 ((length sentences + 49) / 50) !! k) as [j|] eqn:Hj;
      [|done].
    apply lookup_seq in Hj as [-> Hk]. simpl in Hp. injection Hp as <-.
    split; [f_equal; lia|].
    pose proof (Nat.div_mod_eq (length sentences + 49) 50) as Hd.
    pose proof (Nat.mod_upper_bound (length sentences + 49) 50 ltac:(lia)) as Hm.
    lia.
Qed.

(** X3. [process_large_text] does not raise. Whatever spaCy returns as
    sentences and vectors, the function returns a text: the indexing of
    [sentences], [vectors] and [norms] in the loop stays in range, because
    the embedding pass built one vector per sentence. The text is the one
    computed from the vectors of the sentences, and the progress reports
    are those of the embedding pass. *)
Theorem process_large_text_returns `{Num : Numeric} (threshold_065 : scalar)
    (sents : str → list str) (embed : str → vec) (text : str) :
  ∃ out : str,
    process_large_text_reporting embed threshold_065 sents text
    = Some (out, if bool_decide (sents text = []) then []
                 else progress (embed_all embed (sents text)))
    ∧ process_large_text threshold_065 sents embed text = Some out.
Proof.
  unfold process_large_text_reporting, process_large_text.
  destruct (bool_decide (sents text = [])); [by exists []|].
  rewrite embed_all_spec. simpl.
  destruct (segment_blocks_spec (default_config threshold_065) (sents text)
              (embed <$> sents text)) as (blocks & Hrun & _).
  { by rewrite length_fmap. }
  rewrite segment_render, Hrun. simpl. by eexists.
Qed.

(** X4. The number of paragraphs. With [max_sentences >= 1] and [N]
    sentences the result has at most [N] paragraphs and at least
    [N / max_sentences]: no paragraph is empty and none is over-full. *)
Theorem paragraph_count_bounds `{Num : Numeric} (cfg : config)
    (sentences : list str) (vectors : list vec) :
  1 ≤ max_sentences cfg →
  length vectors = length sentences →
  ∃ paragraphs : list str,
    segment cfg sentences vectors = Some paragraphs
    ∧ (length paragraphs ≤ length sentences)%nat
    ∧ Z.of_nat (length sentences)
      ≤ max_sentences cfg * Z.of_nat (length paragraphs).
Proof.
  intros Hmax Hlen.
  destruct (segment_blocks_spec cfg sentences vectors Hlen)
    as (blocks & Hrun & Hcat & Hne & Hbound).
  exists (join SPACE <$> blocks). split; [by rewrite segment_render, Hrun|].
  rewrite length_fmap.
  destruct (concat_length_bounds blocks (Z.to_nat (max_sentences cfg)))
    as [Hlo Hhi].
  { rewrite Forall_forall in Hne, Hbound. apply Forall_forall. intros b Hb.
    specialize (Hne b Hb). specialize (Hbound b Hb).
    destruct b; [done|]. simpl in *. lia. }
  rewrite Hcat in Hlo, Hhi. split; [done|]. nia.
Qed.

Lemma paragraph_count_bounds_witness :
  ∃ paragraphs : list str,
    segment Binary32.default Sample.sentences Sample.vectors = Some paragraphs
    ∧ (length paragraphs ≤ length Sample.sentences)%nat
    ∧ Z.of_nat (length Sample.sentences) ≤ 4 * Z.of_nat (length paragraphs).
Proof.
  apply (paragraph_count_bounds Binary32.default Sample.sentences Sample.vectors).
  - simpl. lia.
  - reflexivity.
Defined.

(** X5. Nothing is lost or added. The text returned is the sentences, in
    their order, each followed by one separator that is either a space or a
    blank line (two line feeds); the last sentence ends the text. *)
Theorem text_is_sentences_glued `{Num : Numeric} (cfg : config)
    (sentences : list str) (vectors : list vec) :
  length vectors = length sentences →
  ∃ seps : list str,
    length seps = (length sentences - 1)%nat
    ∧ Forall (λ sep, sep = SPACE ∨ sep = BLANK) seps
    ∧ join BLANK <$> segment cfg sentences vectors
      = Some (glue sentences seps).
Proof.
  intros Hlen.
  destruct (segment_blocks_spec cfg sentences vectors Hlen)
    as (blocks & Hrun & Hcat & Hne & _).
  destruct (join_blocks_glue SPACE BLANK blocks Hne) as (seps & Hl & Hs & Hj).
  exists seps. rewrite Hcat in Hl, Hj. split; [done|]. split; [done|].
  rewrite segment_render, Hrun. simpl. by rewrite Hj.
Qed.

Lemma text_is_sentences_glued_witness :
  ∃ seps : list str,
    length seps = (length Sample.sentences - 1)%nat
    ∧ Forall (λ sep, sep = SPACE ∨ sep = BLANK) seps
    ∧ join BLANK <$> segment Binary32.default Sample.sentences Sample.vectors
      = Some (glue Sample.sentences seps).
Proof.
  apply (text_is_sentences_glued Binary32.default Sample.sentences
           Sample.vectors).
  reflexivity.
Defined.

(** X6. Vectors of zeros. When every vector is a row of zeros (what spaCy
    gives for text outside its vocabulary), every similarity is NaN and the
    threshold never cuts: with [window_size >= 1] and [max_sentences >= 1]
    the sentences are simply grouped by [max_sentences], every paragraph
    but the last holding exactly [max_sentences] of them. *)
Theorem zero_vectors_fixed_groups (cfg : config (H:=Binary32.numeric))
    (sentences : list str) (vectors : list (list Binary32.f32)) :
  0 < window_size cfg →
  1 ≤ max_sentences cfg →
  length vectors = length sentences →
  Forall (λ v, ZeroNorm.zero_row v = true) vectors →
  ∃ blocks : list (list str),
    segment_blocks cfg sentences vectors = Some blocks
    ∧ segment cfg sentences vectors = Some (join SPACE <$> blocks)
    ∧ concat blocks = sentences
    ∧ ∀ k b, blocks !! k = Some b → (S k < length blocks)%nat →
        Z.of_nat (length b) = max_sentences cfg.
Proof.
  intros Hw Hmax Hlen Hzero.
  destruct (decide (sentences = [])) as [->|Hne].
  { exists []. by repeat split. }
  destruct (segment_blocks_final cfg sentences vectors Hlen Hne)
    as (st & Hst & Hinv & Hrun).
  destruct (state_at_inv_with cfg sentences vectors Hlen
              (λ _ st, Forall (λ b, Z.of_nat (length b) = max_sentences cfg)
                         (paragraphs st))
              (length sentences)) as (st' & Hst' & _ & Hfull).
  { destruct sentences; [done|simpl; lia]. }
  { intros. by apply Forall_nil. }
  { intros j stj v_j s_j Hj Hinvj Hfull Hvj Hsj.
    rewrite avg_nan_zero_current.
    - unfold should_break, next_state. simpl.
      destruct (max_sentences cfg <=? Z.of_nat (length (current_para stj)))
        eqn:Hcut; simpl; [|done].
      apply Forall_app. split; [done|]. apply Forall_singleton.
      apply Z.leb_le in Hcut.
      pose proof (inv_current_bound _ _ _ _ _ Hinvj). lia.
    - rewrite Forall_forall in Hzero. apply Hzero.
      by apply list_elem_of_lookup_2 in Hvj.
    - apply (block_inv_window_nonempty cfg sentences vectors j); try done. lia. }
  rewrite Hst in Hst'. injection Hst' as <-.
  exists (paragraphs st ++ [current_para st]). split; [done|]. split.
  { by rewrite segment_render, Hrun. }
  split.
  { rewrite concat_app. simpl. rewrite app_nil_r.
    pose proof (inv_cover _ _ _ _ _ Hinv) as Hc. by rewrite firstn_all in Hc. }
  intros k b Hb Hk. rewrite length_app in Hk. simpl in Hk.
  rewrite lookup_app_l in Hb by lia.
  rewrite Forall_forall in Hfull. apply Hfull.
  by apply list_elem_of_lookup_2 in Hb.
Qed.

Lemma zero_vectors_fixed_groups_witness :
  ∃ blocks : list (list str),
    segment_blocks Binary32.default Sample.sentences
      (replicate 5 Sample.vZero) = Some blocks
    ∧ segment Binary32.default Sample.sentences (replicate 5 Sample.vZero)
      = Some (join SPACE <$> blocks)
    ∧ concat blocks = Sample.sentences
    ∧ ∀ k b, blocks !! k = Some b → (S k < length blocks)%nat →
        Z.of_nat (length b) = 4.
Proof.
  apply (zero_vectors_fixed_groups Binary32.default Sample.sentences
           (replicate 5 Sample.vZero)).
  - reflexivity.
  - simpl. lia.
  - reflexivity.
  - vm_compute. repeat constructor.
Defined.

(** X7. A window of size zero is not an empty window. [window_size] is
    the parameter of line 51, which the source sets to 2. Python reads
    [prev_vectors[-0:]] as the whole list: were the parameter 0, the
    vector of sentence [i] would be compared with the vectors of all the
    sentences of the open paragraph, from its first sentence [s] to
    [i - 1], and iteration [i] of the source's run would decide from the
    mean over all of them. *)
Theorem window_size_zero_is_unbounded `{Num : Numeric} (cfg : config)
    (sentences : list str) (vectors : list vec) (i : nat) :
  window_size cfg = 0 →
  length vectors = length sentences →
  (1 ≤ i < length sentences)%nat →
  ∃ (st : state (list str)) (v_i : vec) (s_i : str),
    state_at id cfg sentences vectors i = Some st
    ∧ vectors !! i = Some v_i
    ∧ sentences !! i = Some s_i
    ∧ let s := length (concat (paragraphs st)) in
      let avg := np_mean ((λ u, cosine_similarity u v_i) <$> slice s i vectors) in
      let st_run := render (join SPACE) st in
      let cut := should_break cfg avg (current_para st_run) in
      (s < i)%nat
      ∧ current_para st = slice s i sentences
      ∧ tail_slice (window_size cfg) (prev_vectors st) = slice s i vectors
      ∧ avg_similarity_at (join SPACE) cfg sentences vectors i = Some avg
      ∧ state_at (join SPACE) cfg sentences vectors i = Some st_run
      ∧ tail_slice (window_size cfg) (prev_vectors st_run) = slice s i vectors
      ∧ loop_body (join SPACE) cfg sentences vectors i st_run
        = Some (next_state (join SPACE) cfg st_run s_i v_i cut)
      ∧ state_at (join SPACE) cfg sentences vectors (S i)
        = Some (next_state (join SPACE) cfg st_run s_i v_i cut).
Proof.
  intros Hw Hlen Hi.
  destruct (state_at_inv_with cfg sentences vectors Hlen
              (λ j st, prev_vectors st
                       = slice (length (concat (paragraphs st))) j vectors)
              i) as (st & Hst & Hinv & Hwin).
  { lia. }
  { intros s0 v0 _ Hv0. simpl. unfold slice. simpl.
    destruct vectors; by simplify_eq/=. }
  { intros j stj v_j s_j Hj Hinvj Hwinj Hvj Hsj.
    pose proof (block_inv_index cfg sentences vectors Hlen j stj ltac:(lia)
                  Hinvj) as Hidx.
    unfold next_state. rewrite Hw, !tail_slice_zero.
    destruct (should_break _ _ _); simpl.
    - rewrite concat_app, length_app. simpl. rewrite app_nil_r, Hidx.
      unfold slice. rewrite (take_S_r _ _ _ Hvj), drop_app_length'; [done|].
      rewrite length_take. lia.
    - rewrite Hwinj. apply slice_snoc; [lia|done]. }
  pose proof (block_inv_index cfg sentences vectors Hlen i st ltac:(lia) Hinv)
    as Hidx.
  destruct (lookup_lt_is_Some_2 vectors i) as [v_i Hv]; [lia|].
  destruct (lookup_lt_is_Some_2 sentences i) as [s_i Hs_i]; [lia|].
  exists st, v_i, s_i. split; [done|]. split; [done|]. split; [done|]. simpl.
  pose proof (inv_current_nonempty _ _ _ _ _ Hinv) as Hcne.
  pose proof (inv_cover _ _ _ _ _ Hinv) as Hc.
  assert (length (concat (paragraphs st)) < i)%nat as Hs.
  { destruct (current_para st); [done|]. simpl in Hidx. lia. }
  assert (slice (length (concat (paragraphs st))) i vectors ≠ []) as Hne.
  { intros Hnil. apply (f_equal length) in Hnil.
    rewrite slice_length in Hnil by lia. simpl in Hnil. lia. }
  assert (tail_slice (window_size cfg) (prev_vectors st)
          = slice (length (concat (paragraphs st))) i vectors) as Htail.
  { by rewrite Hw, tail_slice_zero. }
  assert (state_at (join SPACE) cfg sentences vectors i
          = Some (render (join SPACE) st)) as Hrun.
  { by rewrite state_at_render, Hst. }
  assert (loop_body (join SPACE) cfg sentences vectors i (render (join SPACE) st)
          = Some (next_state (join SPACE) cfg (render (join SPACE) st) s_i v_i
                    (should_break cfg
                       (np_mean ((λ u, cosine_similarity u v_i)
                                   <$> slice (length (concat (paragraphs st))) i
                                         vectors))
                       (current_para st)))) as Hbody.
  { rewrite (loop_body_next (join SPACE) cfg sentences vectors i _ v_i s_i Hv Hs_i).
    simpl. rewrite Htail. do 3 f_equal. by apply avg_of_similarities. }
  split; [done|]. split.
  { unfold slice. by rewrite <- Hc, drop_app_length. }
  split; [done|]. split.
  { rewrite avg_similarity_at_render. unfold avg_similarity_at, norms.
    rewrite Hst. simpl. rewrite Hv. simpl. rewrite list_lookup_fmap, Hv. simpl.
    rewrite Htail. f_equal. by apply avg_of_similarities. }
  split; [done|]. split; [done|]. split; [done|].
  rewrite state_at_S by lia. rewrite Hrun. simpl. exact Hbody.
Qed.

Lemma window_size_zero_is_unbounded_witness :
  ∃ (st : state (list str)) (v_i : vec) (s_i : str),
    state_at id Sample.unbounded_window Sample.sentences Sample.vectors 2
    = Some st
    ∧ Sample.vectors !! 2%nat = Some v_i
    ∧ Sample.sentences !! 2%nat = Some s_i
    ∧ let s := length (concat (paragraphs st)) in
      let avg :=
        np_mean ((λ u, cosine_similarity u v_i) <$> slice s 2 Sample.vectors) in
      let st_run := render (join SPACE) st in
      let cut := should_break Sample.unbounded_window avg (current_para st_run) in
      (s < 2)%nat
      ∧ current_para st = slice s 2 Sample.sentences
      ∧ tail_slice (window_size Sample.unbounded_window) (prev_vectors st)
        = slice s 2 Sample.vectors
      ∧ avg_similarity_at (join SPACE) Sample.unbounded_window Sample.sentences
          Sample.vectors 2
        = Some avg
      ∧ state_at (join SPACE) Sample.unbounded_window Sample.sentences
          Sample.vectors 2
        = Some st_run
      ∧ tail_slice (window_size Sample.unbounded_window) (prev_vectors st_run)
        = slice s 2 Sample.vectors
      ∧ loop_body (join SPACE) Sample.unbounded_window Sample.sentences
          Sample.vectors 2 st_run
        = Some (next_state (join SPACE) Sample.unbounded_window st_run s_i v_i
                  cut)
      ∧ state_at (join SPACE) Sample.unbounded_window Sample.sentences
          Sample.vectors 3
        = Some (next_state (join SPACE) Sample.unbounded_window st_run s_i v_i
                  cut).
Proof.
  apply (window_size_zero_is_unbounded Sample.unbounded_window Sample.sentences
           Sample.vectors 2).
  - reflexivity.
  - reflexivity.
  - simpl. lia.
Defined.

(** X8. [save_result] only inserts line feeds. The text it was given can
    be read off the text it writes by leaving characters out, and once the
    line feeds are deleted from both, the two texts are equal: no character
    of the input is changed, lost or moved. *)
Theorem save_result_only_adds_line_feeds (is_digit : N → bool)
    (processed : str) :
  processed `sublist_of` Marker.save_result is_digit processed
  ∧ filter (λ c, c ≠ NL) (Marker.save_result is_digit processed)
    = filter (λ c, c ≠ NL) processed.
Proof.
  unfold Marker.save_result. split.
  - apply re_sub_sublist.
  - apply re_sub_filter.
Qed.

(** X9. [save_result] writes the text unchanged exactly when the pattern
    matches at none of its indices. *)
Theorem save_result_unchanged_iff_no_marker (is_digit : N → bool)
    (processed : str) :
  Marker.save_result is_digit processed = processed
  ↔ ∀ p, Marker.matches_at is_digit (drop p processed) = false.
Proof. apply re_sub_fixed. Qed.

(** X10. The length reported. Let [\d] match neither a line feed nor [[].
    The text written, whose length the status line reports, is longer than
    the text given by four characters for each index at which the pattern
    matches: every marker is wrapped, none is passed over. *)
Theorem save_result_length (is_digit : N → bool) (processed : str) :
  is_digit NL = false →
  is_digit Marker.LBRACKET = false →
  length (Marker.save_result is_digit processed)
  = (length processed + 4 * marker_count is_digit processed)%nat.
Proof.
  intros Hnl Hlb. unfold Marker.save_result.
  induction processed as [|c rest Hm IH|m after Hmk IH]
    using (re_sub_ind is_digit).
  - done.
  - rewrite (re_sub_copy _ _ _ Hm), (marker_count_copy _ _ _ Hm). simpl.
    rewrite IH. lia.
  - rewrite (re_sub_marker _ _ _ Hmk).
    rewrite (marker_count_marker is_digit Hnl Hlb m after Hmk).
    rewrite !length_app, IH. simpl. lia.
Qed.

Lemma save_result_length_witness :
  length (Marker.save_result Marker.ascii_digit
            (py "Intro. [00:05] Next. [01:10]"))
  = (length (py "Intro. [00:05] Next. [01:10]")
     + 4 * marker_count Marker.ascii_digit (py "Intro. [00:05] Next. [01:10]"))%nat.
Proof.
  apply (save_result_length Marker.ascii_digit
           (py "Intro. [00:05] Next. [01:10]")); reflexivity.
Defined.

(** X11. [save_result] neither makes nor breaks a marker. Let [\d] match
    neither a line feed nor [[]. The pattern matches at as many indices of
    the text written as of the text given. *)
Theorem save_result_keeps_markers (is_digit : N → bool) (processed : str) :
  is_digit NL = false →
  is_digit Marker.LBRACKET = false →
  marker_count is_digit (Marker.save_result is_digit processed)
  = marker_count is_digit processed.
Proof.
  intros Hnl Hlb. unfold Marker.save_result.
  assert (NL ≠ Marker.LBRACKET) as Hne by done.
  induction processed as [|c rest Hm IH|m after Hmk IH]
    using (re_sub_ind is_digit).
  - done.
  - rewrite (re_sub_copy _ _ _ Hm), (marker_count_copy _ _ _ Hm).
    rewrite marker_count_copy; [done|].
    destruct (Marker.matches_at is_digit (c :: Marker.re_sub is_digit rest))
      eqn:Hm'; [|done].
    apply (matches_at_copied is_digit Hnl Hlb) in Hm'. congruence.
  - rewrite (re_sub_marker _ _ _ Hmk).
    rewrite (marker_count_marker is_digit Hnl Hlb m after Hmk).
    unfold BLANK at 1.
    change ([NL; NL] ++ ?l) with (NL :: NL :: l).
    rewrite !marker_count_copy
      by by apply (matches_at_not_bracket is_digit Hnl Hlb).
    rewrite (marker_count_marker is_digit Hnl Hlb m _ Hmk).
    unfold BLANK. change ([NL; NL] ++ ?l) with (NL :: NL :: l).
    rewrite !marker_count_copy
      by by apply (matches_at_not_bracket is_digit Hnl Hlb).
    by rewrite IH.
Qed.

Lemma save_result_keeps_markers_witness :
  marker_count Marker.ascii_digit
    (Marker.save_result Marker.ascii_digit (py "Intro. [00:05] Next. [01:10]"))
  = marker_count Marker.ascii_digit (py "Intro. [00:05] Next. [01:10]").
Proof.
  apply (save_result_keeps_markers Marker.ascii_digit
           (py "Intro. [00:05] Next. [01:10]")); reflexivity.
Defined.

(** X12. Stamps under one hundred hours. For [0 <= seconds < 360000], with
    [t] the whole minutes in [seconds], [format_timestamp] returns [[],
    the two digits of the hours [t / 60], a colon, the two digits of the
    minutes [t mod 60], []]: seven characters, which the pattern of
    [save_result] matches. *)
Theorem format_timestamp_under_100_hours (seconds : QArith_base.Q) :
  Timestamp.in_range seconds →
  let t := Timestamp.whole_minutes seconds in
  0 <= t / 60 < 100
  ∧ 0 <= t mod 60 < 60
  ∧ Timestamp.format_timestamp seconds
    = [Marker.LBRACKET] ++ Timestamp.two_digits (t / 60) ++ [Marker.COLON]
        ++ Timestamp.two_digits (t mod 60) ++ [Marker.RBRACKET]
  ∧ Marker.is_marker Marker.ascii_digit (Timestamp.format_timestamp seconds)
    = true.
Proof.
  intros Hr. apply StampRange.whole_minutes_range in Hr. simpl.
  split.
  { split; [apply Z.div_pos; lia|apply Z.div_lt_upper_bound; lia]. }
  split; [apply Z.mod_pos_bound; lia|].
  by apply format_minutes_in_range.
Qed.

Lemma format_timestamp_under_100_hours_witness :
  Timestamp.format_timestamp (QArith_base.inject_Z 300) = py "[00:05]".
Proof.
  apply (format_timestamp_under_100_hours (QArith_base.inject_Z 300)).
  split; vm_compute; congruence.
Defined.

(** X13. Outside that range the stamp is no marker. For a [seconds] on
    which the float [divmod] is exact, the stamp is a full match of the
    pattern [\[\d{2}:\d{2}\]] exactly when [0 <= seconds < 360000]: a
    negative time gives a stamp with a minus sign, as [[-1:59]], and a
    time of one hundred hours or more a stamp with three digits or more
    for the hours, which [save_result] does not set apart. *)
Theorem format_timestamp_marker_iff (seconds : QArith_base.Q) :
  Timestamp.exact seconds →
  Marker.is_marker Marker.ascii_digit (Timestamp.format_timestamp seconds)
  = true
  ↔ Timestamp.in_range seconds.
Proof.
  intros _. unfold Timestamp.in_range.
  rewrite <- StampRange.whole_minutes_range. unfold Timestamp.format_timestamp.
  split.
  - intros Hm.
    destruct (decide (0 <= Timestamp.whole_minutes seconds < 6000))
      as [|Hout]; [done|].
    apply format_minutes_out_of_range in Hout. congruence.
  - intros Hr. by apply format_minutes_in_range.
Qed.

Lemma format_timestamp_marker_iff_witness :
  Marker.is_marker Marker.ascii_digit
    (Timestamp.format_timestamp (QArith_base.inject_Z (-1))) = true
  ↔ Timestamp.in_range (QArith_base.inject_Z (-1)).
Proof.
  apply (format_timestamp_marker_iff (QArith_base.inject_Z (-1))).
  split; vm_compute; congruence.
Defined.

(** X14. One stamp per minute. Under one hundred hours, two times get the
    same stamp exactly when they lie in the same whole minute. *)
Theorem same_stamp_iff_same_minute (seconds seconds' : QArith_base.Q) :
  Timestamp.in_range seconds →
  Timestamp.in_range seconds' →
  Timestamp.format_timestamp seconds = Timestamp.format_timestamp seconds'
  ↔ Timestamp.whole_minutes seconds = Timestamp.whole_minutes seconds'.
Proof.
  intros Hr Hr'. apply StampRange.whole_minutes_range in Hr, Hr'.
  unfold Timestamp.format_timestamp. split.
  - by apply format_minutes_inj.
  - by intros ->.
Qed.

Lemma same_stamp_iff_same_minute_witness :
  Timestamp.format_timestamp (QArith_base.inject_Z 300)
  = Timestamp.format_timestamp (QArith_base.Qmake 719 2)
  ↔ Timestamp.whole_minutes (QArith_base.inject_Z 300)
    = Timestamp.whole_minutes (QArith_base.Qmake 719 2).
Proof.
  apply (same_stamp_iff_same_minute (QArith_base.inject_Z 300)
           (QArith_base.Qmake 719 2));
    split; vm_compute; congruence.
Defined.

(** X15. [save_result] sets apart the stamps of [format_timestamp]. Let
    [\d] match the digits [0] to [9] and neither a line feed nor [[]. In
    a text that has no [[] before a stamp of a time under one hundred
    hours, what stands before the stamp is written as it is, then the
    stamp between two blank lines, and the scan goes on after the stamp. *)
Theorem save_result_wraps_stamp (is_digit : N → bool)
    (seconds : QArith_base.Q) (before after : str) :
  (∀ c, Marker.ascii_digit c = true → is_digit c = true) →
  is_digit NL = false →
  is_digit Marker.LBRACKET = false →
  Timestamp.in_range seconds →
  Forall (λ c, c ≠ Marker.LBRACKET) before →
  Marker.save_result is_digit
    (before ++ Timestamp.format_timestamp seconds ++ after)
  = before ++ BLANK ++ Timestamp.format_timestamp seconds ++ BLANK
      ++ Marker.save_result is_digit after.
Proof.
  intros Hd Hnl Hlb Hr Hbefore. unfold Marker.save_result.
  rewrite (re_sub_no_bracket is_digit before _ Hnl Hlb Hbefore).
  f_equal. apply re_sub_marker, is_marker_mono; [done|].
  apply StampRange.whole_minutes_range in Hr.
  by apply format_minutes_in_range.
Qed.

Lemma save_result_wraps_stamp_witness :
  Marker.save_result Marker.ascii_digit
    (py "Intro. " ++ Timestamp.format_timestamp (QArith_base.inject_Z 300)
       ++ py " Next.")
  = py "Intro. " ++ BLANK
      ++ Timestamp.format_timestamp (QArith_base.inject_Z 300) ++ BLANK
      ++ Marker.save_result Marker.ascii_digit (py " Next.").
Proof.
  apply (save_result_wraps_stamp Marker.ascii_digit (QArith_base.inject_Z 300)
           (py "Intro. ") (py " Next.")).
  - done.
  - reflexivity.
  - reflexivity.
  - split; vm_compute; congruence.
  - vm_compute. repeat constructor; discriminate.
Defined.
